(** * TableHub backend: the synchronisation engine and its store

    A shallow embedding of the sync engine ([backend/sync_engine.py], the
    [SyncEngine] class of [backend-sync-engine (1).py]), of the part of the
    store it calls ([backend/database.py], the [Database] class of
    [backend_database.py]) and of the push handler of [backend_app.py].

    Python values are modelled by the types the code handles them with:
    integers are unbounded ([Z]), strings are [string] and are ordered the way
    Python orders [str] (lexicographically, character by character),
    dictionaries read with [.get] are records whose fields say whether the key
    is missing, and exceptions are an explicit result type.  The database is
    an explicit state threaded through a state-and-exception monad. *)

From Stdlib Require Import ZArith String List Bool Lia DecimalString Sorted.
From stdpp Require Import gmap strings list fin_maps sorting.

Local Open Scope string_scope.
Local Open Scope list_scope.

(** ** Python values *)

(** A cell or header as stored in the JSON document: a string, or [None]
    when a client sent an explicit null. *)
Inductive pyval : Type :=
| PNone
| PStr (s : string).

(** A key of an operation dictionary: missing, present with [None], or
    present with a value. *)
Inductive field (A : Type) : Type :=
| Missing
| Null
| Val (a : A).
Arguments Missing {A}.
Arguments Null {A}.
Arguments Val {A} a.

(** [d.get(k)]: [None] when the key is missing or null. *)
Definition dict_get {A} (f : field A) : option A :=
  match f with
  | Val a => Some a
  | _ => None
  end.

(** [d.get(k, default)] for a string-valued key: only a missing key takes
    the default. *)
Definition dict_get_str (f : field string) (default : pyval) : pyval :=
  match f with
  | Missing => default
  | Null => PNone
  | Val s => PStr s
  end.

(** [d.get(k, default)] for an integer-valued key. *)
Definition dict_get_int (f : field Z) (default : Z) : option Z :=
  match f with
  | Missing => Some default
  | Null => None
  | Val z => Some z
  end.

(** Truthiness of an optional string: [None] and [""] are falsy. *)
Definition truthy (s : option string) : bool :=
  match s with
  | None => false
  | Some s => negb (String.eqb s "")
  end.

(** [str(n)] for an integer. *)
Definition str_of_int (n : Z) : string := NilZero.string_of_int (Z.to_int n).

Inductive exn : Type :=
| TypeError
| IndexError
| AttributeError
| StorageError
| IntegrityError
| ValidationError.

Inductive result (A : Type) : Type :=
| Ok (a : A)
| Raise (e : exn).
Arguments Ok {A} a.
Arguments Raise {A} e.

(** ** Python list indexing *)

(** The position a (possibly negative) index denotes in a list of length
    [n], if any. *)
Definition py_index (n : nat) (i : Z) : option nat :=
  if (0 <=? i)%Z then
    if (i <? Z.of_nat n)%Z then Some (Z.to_nat i) else None
  else
    if (- Z.of_nat n <=? i)%Z then Some (Z.to_nat (Z.of_nat n + i)) else None.

(** [l[i]] *)
Definition py_getitem {A} (l : list A) (i : Z) : result A :=
  match py_index (length l) i with
  | Some k =>
      match l !! k with
      | Some x => Ok x
      | None => Raise IndexError
      end
  | None => Raise IndexError
  end.

(** [l[i] = x] *)
Definition py_setitem {A} (l : list A) (i : Z) (x : A) : result (list A) :=
  match py_index (length l) i with
  | Some k => Ok (<[k:=x]> l)
  | None => Raise IndexError
  end.

(** [while len(l) <= col: l.append(d)] appends [col + 1 - len(l)] copies of
    [d] when that number is positive and nothing otherwise. *)
Definition pad {A} (l : list A) (col : Z) (d : A) : list A :=
  l ++ replicate (Z.to_nat (col + 1 - Z.of_nat (length l))) d.

(** [l.insert(i, x)] for [0 <= i <= len(l)]. *)
Definition list_insert_at {A} (i : nat) (x : A) (l : list A) : list A :=
  take i l ++ x :: drop i l.

(** [l.pop(i)] for [0 <= i < len(l)] (the popped element is not used). *)
Definition list_pop {A} (i : nat) (l : list A) : list A :=
  take i l ++ drop (S i) l.

(** ** Data model ([backend/models.py]) *)

Inductive OperationType : Type :=
| SET_CELL | ADD_ROW | DELETE_ROW | ADD_COLUMN | DELETE_COLUMN
| SET_HEADER | RENAME_TABLE | DELETE_TABLE.

Definition OperationType_value (t : OperationType) : string :=
  match t with
  | SET_CELL => "setCell"
  | ADD_ROW => "addRow"
  | DELETE_ROW => "deleteRow"
  | ADD_COLUMN => "addColumn"
  | DELETE_COLUMN => "deleteColumn"
  | SET_HEADER => "setHeader"
  | RENAME_TABLE => "renameTable"
  | DELETE_TABLE => "deleteTable"
  end.

(** [op_type == OperationType.X]: the enumeration derives from [str]. *)
Definition is_op (op_type : string) (t : OperationType) : bool :=
  String.eqb op_type (OperationType_value t).

Record CellMeta : Type := mkCellMeta {
  m_value : pyval;
  m_ts : option Z;
  m_by : string }.

(** A row of a table.  [cellMeta] holds one entry per written column, [None]
    where a column was never written; trailing entries may be missing. *)
Record Row : Type := mkRow {
  r_rowId : string;
  r_cells : list pyval;
  r_cellMeta : list (option CellMeta) }.

Record Table : Type := mkTable {
  t_id : string;
  t_name : string;
  t_headers : list pyval;
  t_rows : list Row;
  t_updatedAt : Z;
  t_version : Z }.

(** An operation as the engine receives it: a dictionary. *)
Record Operation : Type := mkOp {
  o_op : field string;
  o_tableId : field string;
  o_rowId : field string;
  o_col : field Z;
  o_value : field string;
  o_ts : field Z;
  o_afterRowId : field string;
  o_colIndex : field Z;
  o_header : field string;
  o_name : field string }.

Record SyncEvent : Type := mkEvent {
  e_id : Z;
  e_cursor : string;
  e_clientId : string;
  e_operation : Operation;
  e_serverTs : Z;
  e_applied : bool }.

Record Delta : Type := mkDelta {
  d_op : option string;
  d_tableId : option string;
  d_rowId : option string;
  d_col : option Z;
  d_value : option string;
  d_afterRowId : option string;
  d_colIndex : option Z;
  d_header : option string;
  d_name : option string;
  d_serverTs : Z;
  d_by : string }.

(** The entry [process_sync] records for an operation that was not applied. *)
Record ConflictEntry : Type := mkConflict {
  c_operation : Operation;
  c_reason : string }.

(** ** The database state and the monad of store calls *)

(** The calls of [Database] the engine makes, recorded in call order. *)
Inductive StoreCall : Type :=
| GetAllTables
| GetTable (table_id : string)
| UpdateTable (table_id : string)
| DeleteTable (table_id : string)
| AddSyncEvent (cursor : string)
| GetEventsSince (cursor : string)
| GetLatestCursor.

(** A row of the [tables] relation, keyed by [id]: the [name] column, the
    JSON [data] column ([headers] and [rows]), [updated_at] and [version]. *)
Record TableRow : Type := mkTableRow {
  tr_name : string;
  tr_headers : list pyval;
  tr_rows : list Row;
  tr_updated_at : Z;
  tr_version : Z }.

(** [db_tables] is the [tables] relation (primary key [id]); [db_events] is
    the [sync_events] relation in append order, which is the order of the
    [id] column.  [db_clock] stands for [datetime.utcnow()].  [db_faults]
    schedules storage faults: every store call consumes one entry, and raises
    without effect when the entry is [true] (an exhausted schedule means no
    further fault).  [db_calls] is the log of the calls made so far. *)
Record Database : Type := mkDb {
  db_tables : gmap string TableRow;
  db_events : list SyncEvent;
  db_clock : Z;
  db_faults : list bool;
  db_calls : list StoreCall }.

Definition M (A : Type) : Type := Database -> result A * Database.

Definition ret {A} (a : A) : M A := fun db => (Ok a, db).

Definition bind {A B} (m : M A) (k : A -> M B) : M B :=
  fun db =>
    match m db with
    | (Ok a, db') => k a db'
    | (Raise e, db') => (Raise e, db')
    end.

Definition raise {A} (e : exn) : M A := fun db => (Raise e, db).

(** A pure computation that may raise. *)
Definition lift {A} (r : result A) : M A := fun db => (r, db).

(** [try: m  except Exception: h] *)
Definition try_except {A} (m : M A) (h : exn -> M A) : M A :=
  fun db =>
    match m db with
    | (Ok a, db') => (Ok a, db')
    | (Raise e, db') => h e db'
    end.

Declare Scope db_scope.
Delimit Scope db_scope with db.
Notation "x <- m ;; k" := (bind m (fun x => k))
  (at level 100, m at next level, right associativity) : db_scope.
Notation "m ;;; k" := (bind m (fun _ => k))
  (at level 100, right associativity) : db_scope.
Local Open Scope db_scope.

Definition get_db : M Database := fun db => (Ok db, db).

Definition set_tables (tbls : gmap string TableRow) : M unit :=
  fun db => (Ok tt, mkDb tbls (db_events db) (db_clock db) (db_faults db) (db_calls db)).

Definition set_events (evs : list SyncEvent) : M unit :=
  fun db => (Ok tt, mkDb (db_tables db) evs (db_clock db) (db_faults db) (db_calls db)).

(** [datetime.utcnow()]: read the clock, which then advances. *)
Definition utcnow : M Z :=
  fun db => (Ok (db_clock db),
             mkDb (db_tables db) (db_events db) (db_clock db + 1) (db_faults db) (db_calls db)).

(** Entering a store call: log it and take the next scheduled fault. *)
Definition storage_call (c : StoreCall) : M unit :=
  fun db =>
    let db' f := mkDb (db_tables db) (db_events db) (db_clock db) f (db_calls db ++ [c]) in
    match db_faults db with
    | true :: f => (Raise StorageError, db' f)
    | false :: f => (Ok tt, db' f)
    | [] => (Ok tt, db' [])
    end.

(** ** The store ([backend/database.py]) *)

Definition with_rows (t : Table) (rows : list Row) : Table :=
  mkTable (t_id t) (t_name t) (t_headers t) rows (t_updatedAt t) (t_version t).

Definition with_headers_rows (t : Table) (headers : list pyval) (rows : list Row) : Table :=
  mkTable (t_id t) (t_name t) headers rows (t_updatedAt t) (t_version t).

Definition with_name (t : Table) (name : string) : Table :=
  mkTable (t_id t) name (t_headers t) (t_rows t) (t_updatedAt t) (t_version t).

(** The dictionary [get_table] and [get_all_tables] build from a row. *)
Definition _parse_table_row (id : string) (row : TableRow) : Table :=
  mkTable id (tr_name row) (tr_headers row) (tr_rows row)
          (tr_updated_at row) (tr_version row).

(** [ORDER BY updated_at DESC] as a stable insertion sort. *)
Fixpoint insert_by_updated (t : Table) (l : list Table) : list Table :=
  match l with
  | [] => [t]
  | u :: l' =>
      if (t_updatedAt u <? t_updatedAt t)%Z then t :: l
      else u :: insert_by_updated t l'
  end.

Definition order_by_updated_desc (l : list Table) : list Table :=
  foldr insert_by_updated [] l.

Definition get_all_tables : M (list Table) :=
  storage_call GetAllTables;;;
  db <- get_db;;
  ret (order_by_updated_desc
         (map (fun kv => _parse_table_row (fst kv) (snd kv))
              (map_to_list (db_tables db)))).

Definition get_table (table_id : string) : M (option Table) :=
  storage_call (GetTable table_id);;;
  db <- get_db;;
  ret (_parse_table_row table_id <$> db_tables db !! table_id).

(** [UPDATE tables SET name, data, updated_at, version = version + 1
    WHERE id = table_id]; the result tells whether a row matched. *)
Definition update_table (table_id : string) (table_data : Table) : M bool :=
  storage_call (UpdateTable table_id);;;
  now <- utcnow;;
  db <- get_db;;
  match db_tables db !! table_id with
  | Some old =>
      set_tables (<[table_id :=
        mkTableRow (t_name table_data) (t_headers table_data)
                   (t_rows table_data) now (tr_version old + 1)]> (db_tables db));;;
      ret true
  | None => ret false
  end.

Definition delete_table (table_id : string) : M bool :=
  storage_call (DeleteTable table_id);;;
  db <- get_db;;
  match db_tables db !! table_id with
  | Some _ => set_tables (delete table_id (db_tables db));;; ret true
  | None => ret false
  end.

(** The [id] the next insert into [sync_events] receives. *)
Definition next_event_id (evs : list SyncEvent) : Z :=
  match last evs with
  | Some e => (e_id e + 1)%Z
  | None => 1%Z
  end.

(** [cursor] is declared [UNIQUE]: a duplicate makes the insert fail. *)
Definition add_sync_event (cursor client_id : string) (operation : Operation) : M Z :=
  storage_call (AddSyncEvent cursor);;;
  now <- utcnow;;
  db <- get_db;;
  if existsb (fun e => String.eqb (e_cursor e) cursor) (db_events db) then
    raise IntegrityError
  else
    let id := next_event_id (db_events db) in
    set_events (db_events db ++ [mkEvent id cursor client_id operation now true]);;;
    ret id.

(** [SELECT id FROM sync_events WHERE cursor = ?] *)
Definition cursor_id (cursor : string) (evs : list SyncEvent) : option Z :=
  e_id <$> List.find (fun e => String.eqb (e_cursor e) cursor) evs.

(** The query of [get_events_since]: the first [limit] events from the
    start for the sentinel ["0"], else the first [limit] events whose [id] is
    above that of the event under [cursor], none when there is no such event.
    [ORDER BY id ASC] is the order of the log. *)
Definition events_since (cursor : string) (limit : nat) (evs : list SyncEvent)
  : list SyncEvent :=
  if String.eqb cursor "0" then take limit evs
  else
    match cursor_id cursor evs with
    | Some i => take limit (List.filter (fun e => (i <? e_id e)%Z) evs)
    | None => []
    end.

Definition get_events_since (cursor : string) (limit : nat) : M (list SyncEvent) :=
  storage_call (GetEventsSince cursor);;;
  db <- get_db;;
  ret (events_since cursor limit (db_events db)).

(** The default of [get_events_since]'s [limit] parameter. *)
Definition default_limit : nat := 100.

Definition get_latest_cursor : M string :=
  storage_call GetLatestCursor;;;
  db <- get_db;;
  ret (match last (db_events db) with
       | Some e => e_cursor e
       | None => "0"
       end).

(** ** The sync engine ([backend/sync_engine.py]) *)

(** Determine if a change should be applied using LWW.  Comparing a missing
    ([None]) remote timestamp with an integer raises. *)
Definition _should_apply_change (current_meta : option CellMeta)
    (remote_ts : option Z) (remote_client_id : string) : result bool :=
  match current_meta with
  | None => Ok true
  | Some meta =>
      match m_ts meta with
      | None => Ok true
      | Some current_ts =>
          if (current_ts =? 0)%Z then Ok true
          else
            let current_client_id := m_by meta in
            match remote_ts with
            | None => Raise TypeError
            | Some remote_ts =>
                if (current_ts <? remote_ts)%Z then Ok true
                else if (remote_ts =? current_ts)%Z then
                  Ok (String.ltb current_client_id remote_client_id)
                else Ok false
            end
      end
  end.

(** The loop of [_apply_set_cell] over [table["rows"]].  [seen] holds the
    rows already visited, as the loop left them: a visited row with the
    wanted id that lost the comparison keeps the padding done in place. *)
Fixpoint set_cell_rows (table : Table) (seen rows : list Row) (row_id : string)
    (col : Z) (value : pyval) (ts : option Z) (client_id : string) : M bool :=
  match rows with
  | [] => ret false
  | row :: rest =>
      if String.eqb (r_rowId row) row_id then
        let cells := pad (r_cells row) col (PStr "") in
        let cell_meta := pad (r_cellMeta row) col None in
        current_meta <- lift (py_getitem cell_meta col);;
        apply <- lift (_should_apply_change current_meta ts client_id);;
        if apply then
          cells' <- lift (py_setitem cells col value);;
          cell_meta' <- lift (py_setitem cell_meta col
                                (Some (mkCellMeta value ts client_id)));;
          let row' := mkRow (r_rowId row) cells' cell_meta' in
          update_table (t_id table) (with_rows table (seen ++ row' :: rest))
        else
          set_cell_rows table (seen ++ [mkRow (r_rowId row) cells cell_meta]) rest
                        row_id col value ts client_id
      else
        set_cell_rows table (seen ++ [row]) rest row_id col value ts client_id
  end.

Definition _apply_set_cell (table : option Table) (op : Operation)
    (client_id : string) : M bool :=
  match table with
  | None => ret false
  | Some table =>
      let row_id := dict_get (o_rowId op) in
      let col := dict_get (o_col op) in
      let value := dict_get_str (o_value op) (PStr "") in
      let ts := dict_get (o_ts op) in
      match row_id, col with
      | Some row_id, Some col =>
          set_cell_rows table [] (t_rows table) row_id col value ts client_id
      | _, _ => ret false
      end
  end.

(** [rows.insert(i + 1, new_row)] at the first row whose id is
    [after_row_id]; [rows.append(new_row)] when there is none. *)
Fixpoint insert_after (after_row_id : string) (new_row : Row) (rows : list Row)
  : list Row :=
  match rows with
  | [] => [new_row]
  | row :: rest =>
      if String.eqb (r_rowId row) after_row_id then row :: new_row :: rest
      else row :: insert_after after_row_id new_row rest
  end.

Definition _apply_add_row (table : option Table) (op : Operation)
    (client_id : string) : M bool :=
  match table with
  | None => ret false
  | Some table =>
      let row_id := dict_get (o_rowId op) in
      let after_row_id := dict_get (o_afterRowId op) in
      if negb (truthy row_id) then ret false
      else
        let row_id := default "" row_id in
        let rows := t_rows table in
        if existsb (fun r => String.eqb (r_rowId r) row_id) rows then ret true
        else
          let new_row := mkRow row_id (replicate (length (t_headers table)) (PStr "")) [] in
          let rows :=
            if truthy after_row_id
            then insert_after (default "" after_row_id) new_row rows
            else rows ++ [new_row] in
          update_table (t_id table) (with_rows table rows)
  end.

Definition _apply_delete_row (table : option Table) (op : Operation)
    (client_id : string) : M bool :=
  match table with
  | None => ret false
  | Some table =>
      let row_id := dict_get (o_rowId op) in
      if negb (truthy row_id) then ret false
      else
        let row_id := default "" row_id in
        let rows := t_rows table in
        update_table (t_id table)
          (with_rows table
             (List.filter (fun r => negb (String.eqb (r_rowId r) row_id)) rows))
  end.

(** [l.insert(col_index, x)] when [0 <= col_index <= len(l)], else
    [l.append(x)]. *)
Definition insert_or_append {A} (col_index : Z) (x : A) (l : list A) : list A :=
  if ((0 <=? col_index) && (col_index <=? Z.of_nat (length l)))%Z
  then list_insert_at (Z.to_nat col_index) x l
  else l ++ [x].

Definition _apply_add_column (table : option Table) (op : Operation)
    (client_id : string) : M bool :=
  match table with
  | None => ret false
  | Some table =>
      match dict_get_int (o_colIndex op) (Z.of_nat (length (t_headers table))) with
      | None => raise TypeError
      | Some col_index =>
          let header :=
            dict_get_str (o_header op)
              (PStr ("Column " ++ str_of_int (col_index + 1))%string) in
          let headers := insert_or_append col_index header (t_headers table) in
          let rows :=
            map (fun row =>
                   mkRow (r_rowId row)
                         (insert_or_append col_index (PStr "") (r_cells row))
                         (insert_or_append col_index None (r_cellMeta row)))
                (t_rows table) in
          update_table (t_id table) (with_headers_rows table headers rows)
      end
  end.

(** [if col_index < len(l): l.pop(col_index)] for [0 <= col_index]. *)
Definition pop_if_in_range {A} (col_index : Z) (l : list A) : list A :=
  if (col_index <? Z.of_nat (length l))%Z then list_pop (Z.to_nat col_index) l
  else l.

Definition _apply_delete_column (table : option Table) (op : Operation)
    (client_id : string) : M bool :=
  match table with
  | None => ret false
  | Some table =>
      match dict_get (o_colIndex op) with
      | None => ret false
      | Some col_index =>
          let headers := t_headers table in
          if ((col_index <? 0) || (Z.of_nat (length headers) <=? col_index))%Z
          then ret false
          else
            let headers := list_pop (Z.to_nat col_index) headers in
            let rows :=
              map (fun row =>
                     mkRow (r_rowId row)
                           (pop_if_in_range col_index (r_cells row))
                           (pop_if_in_range col_index (r_cellMeta row)))
                  (t_rows table) in
            update_table (t_id table) (with_headers_rows table headers rows)
      end
  end.

Definition _apply_set_header (table : option Table) (op : Operation)
    (client_id : string) : M bool :=
  match table with
  | None => ret false
  | Some table =>
      let col_index := dict_get (o_colIndex op) in
      let header := dict_get_str (o_header op) (PStr "") in
      match col_index with
      | None => ret false
      | Some col_index =>
          let headers := t_headers table in
          if ((0 <=? col_index) && (col_index <? Z.of_nat (length headers)))%Z
          then
            update_table (t_id table)
              (with_headers_rows table (<[Z.to_nat col_index := header]> headers)
                                 (t_rows table))
          else ret false
      end
  end.

Definition _apply_rename_table (table : option Table) (op : Operation)
    (client_id : string) : M bool :=
  match table with
  | None => ret false
  | Some table =>
      let name := dict_get (o_name op) in
      if negb (truthy name) then ret false
      else update_table (t_id table) (with_name table (default "" name))
  end.

Definition _apply_delete_table (table_id : string) : M bool :=
  delete_table table_id.

(** Apply a single operation to the database.  The whole body sits in a
    [try] whose handler logs the exception and returns [False]. *)
Definition _apply_operation (op : Operation) (client_id : string) : M bool :=
  try_except
    (let op_type := dict_get (o_op op) in
     let table_id := dict_get (o_tableId op) in
     if negb (truthy op_type) || negb (truthy table_id) then ret false
     else
       let op_type := default "" op_type in
       let table_id := default "" table_id in
       table <- get_table table_id;;
       if is_op op_type SET_CELL then _apply_set_cell table op client_id
       else if is_op op_type ADD_ROW then _apply_add_row table op client_id
       else if is_op op_type DELETE_ROW then _apply_delete_row table op client_id
       else if is_op op_type ADD_COLUMN then _apply_add_column table op client_id
       else if is_op op_type DELETE_COLUMN then _apply_delete_column table op client_id
       else if is_op op_type SET_HEADER then _apply_set_header table op client_id
       else if is_op op_type RENAME_TABLE then _apply_rename_table table op client_id
       else if is_op op_type DELETE_TABLE then _apply_delete_table table_id
       else ret false)
    (fun _ => ret false).

(** An operation dictionary with no key at all is falsy. *)
Definition is_missing {A} (f : field A) : bool :=
  match f with
  | Missing => true
  | _ => false
  end.

Definition operation_is_empty (op : Operation) : bool :=
  is_missing (o_op op) && is_missing (o_tableId op) && is_missing (o_rowId op)
  && is_missing (o_col op) && is_missing (o_value op) && is_missing (o_ts op)
  && is_missing (o_afterRowId op) && is_missing (o_colIndex op)
  && is_missing (o_header op) && is_missing (o_name op).

(** Convert a sync event to a delta. *)
Definition _event_to_delta (event : SyncEvent) : option Delta :=
  let operation := e_operation event in
  if operation_is_empty operation then None
  else
    Some (mkDelta (dict_get (o_op operation)) (dict_get (o_tableId operation))
            (dict_get (o_rowId operation)) (dict_get (o_col operation))
            (dict_get (o_value operation)) (dict_get (o_afterRowId operation))
            (dict_get (o_colIndex operation)) (dict_get (o_header operation))
            (dict_get (o_name operation)) (e_serverTs event) (e_clientId event)).

(** The loop of [_get_other_client_changes] over the fetched events. *)
Fixpoint other_client_deltas (client_id : string) (events : list SyncEvent)
  : list Delta :=
  match events with
  | [] => []
  | event :: rest =>
      if String.eqb (e_clientId event) client_id
      then other_client_deltas client_id rest
      else
        match _event_to_delta event with
        | Some delta => delta :: other_client_deltas client_id rest
        | None => other_client_deltas client_id rest
        end
  end.

(** Get changes from other clients since base cursor. *)
Definition _get_other_client_changes (base_cursor client_id : string)
  : M (list Delta) :=
  events <- get_events_since base_cursor default_limit;;
  ret (other_client_deltas client_id events).

Record SyncResult : Type := mkSyncResult {
  sr_cursor : string;
  sr_deltas : list Delta;
  sr_conflicts : list ConflictEntry }.

Record ChangesResult : Type := mkChanges {
  cr_cursor : string;
  cr_deltas : list Delta;
  cr_tables : list Table }.

(** Get all changes since a cursor. *)
Definition get_changes_since (cursor : string) : M ChangesResult :=
  events <- get_events_since cursor default_limit;;
  let deltas := omap _event_to_delta events in
  latest_cursor <- get_latest_cursor;;
  tables <- (if String.eqb cursor "0" then get_all_tables else ret []);;
  ret (mkChanges latest_cursor deltas tables).

Section Engine.

(** [_generate_cursor] reads the clock twice and hashes with SHA-256; the
    hash, cut to 16 hexadecimal digits, is taken as given, as a function
    of the first clock reading, the client and the operation. *)
Variable sha256_hex16 : Z -> string -> Operation -> string.

Definition _generate_cursor (client_id : string) (operation : Operation)
  : M string :=
  timestamp <- utcnow;;
  let cursor_hash := sha256_hex16 timestamp client_id operation in
  millis <- utcnow;;
  ret (str_of_int millis ++ "_" ++ cursor_hash)%string.

(** The loop of [process_sync] over the operations of a push. *)
Fixpoint process_ops (client_id : string) (operations : list Operation)
    (conflicts : list ConflictEntry) (applied_ops : list Operation)
  : M (list ConflictEntry * list Operation) :=
  match operations with
  | [] => ret (conflicts, applied_ops)
  | op :: rest =>
      success <- _apply_operation op client_id;;
      if success then
        cursor <- _generate_cursor client_id op;;
        add_sync_event cursor client_id op;;;
        process_ops client_id rest conflicts (applied_ops ++ [op])
      else
        process_ops client_id rest
          (conflicts ++ [mkConflict op "Failed to apply"]) applied_ops
  end.

(** Process sync operations from client.  The handler of the surrounding
    [try] logs and re-raises. *)
Definition process_sync (client_id base_cursor : string)
    (operations : list Operation) : M SyncResult :=
  r <- process_ops client_id operations [] [];;
  latest_cursor <- get_latest_cursor;;
  other_changes <- _get_other_client_changes base_cursor client_id;;
  ret (mkSyncResult latest_cursor other_changes (fst r)).

End Engine.

(** ** The skeleton engine ([backend/backend_sync_engine.py])

    The second engine file keeps [process_sync] and [_apply_operation] and
    leaves every applier as a placeholder ([pass], which returns [None], a
    falsy result).  Its [_apply_operation] reads the table outside the [try]
    and has no branch for [deleteTable]. *)
Module Placeholder.

Definition _apply_set_cell (table : option Table) (op : Operation)
    (client_id : string) : M bool := ret false.

Definition _apply_add_row (table : option Table) (op : Operation)
    (client_id : string) : M bool := ret false.

Definition _apply_delete_row (table : option Table) (op : Operation)
    (client_id : string) : M bool := ret false.

Definition _apply_add_column (table : option Table) (op : Operation)
    (client_id : string) : M bool := ret false.

Definition _apply_delete_column (table : option Table) (op : Operation)
    (client_id : string) : M bool := ret false.

Definition _apply_set_header (table : option Table) (op : Operation)
    (client_id : string) : M bool := ret false.

Definition _apply_rename_table (table : option Table) (op : Operation)
    (client_id : string) : M bool := ret false.

Definition _apply_operation (op : Operation) (client_id : string) : M bool :=
  let op_type := dict_get (o_op op) in
  let table_id := dict_get (o_tableId op) in
  if negb (truthy op_type) || negb (truthy table_id) then ret false
  else
    let op_type := default "" op_type in
    let table_id := default "" table_id in
    table <- get_table table_id;;
    try_except
      (if is_op op_type SET_CELL then _apply_set_cell table op client_id
       else if is_op op_type ADD_ROW then _apply_add_row table op client_id
       else if is_op op_type DELETE_ROW then _apply_delete_row table op client_id
       else if is_op op_type ADD_COLUMN then _apply_add_column table op client_id
       else if is_op op_type DELETE_COLUMN then _apply_delete_column table op client_id
       else if is_op op_type SET_HEADER then _apply_set_header table op client_id
       else if is_op op_type RENAME_TABLE then _apply_rename_table table op client_id
       else ret false)
      (fun _ => ret false).

End Placeholder.

(** ** Vocabulary of the properties *)

(** The state a store call that met no fault leaves behind it. *)
Definition log_call (c : StoreCall) (db : Database) : Database :=
  mkDb (db_tables db) (db_events db) (db_clock db) (db_faults db) (db_calls db ++ [c]).

(** The state after [update_table tid t] matched the row [old]. *)
Definition updated_db (tid : string) (t : Table) (old : TableRow) (db : Database)
  : Database :=
  mkDb (<[tid := mkTableRow (t_name t) (t_headers t) (t_rows t) (db_clock db)
                            (tr_version old + 1)]> (db_tables db))
       (db_events db) (db_clock db + 1) (db_faults db)
       (db_calls db ++ [UpdateTable tid]).

(** What a [setCell] that meets no fault does on a table whose rows are
    [pre ++ row :: post], [row] being the only one with the wanted id. *)
Definition set_cell_result (db : Database) (tid : string) (tr : TableRow)
    (pre : list Row) (row : Row) (post : list Row) (col : Z) (value : pyval)
    (ts : option Z) (client_id : string) : result bool * Database :=
  let db1 := log_call (GetTable tid) db in
  match py_getitem (pad (r_cellMeta row) col None) col with
  | Raise _ => (Ok false, db1)
  | Ok cur =>
      match _should_apply_change cur ts client_id with
      | Ok true =>
          match py_setitem (pad (r_cells row) col (PStr "")) col value,
                py_setitem (pad (r_cellMeta row) col None) col
                           (Some (mkCellMeta value ts client_id)) with
          | Ok cells', Ok meta' =>
              (Ok true,
               updated_db tid
                 (with_rows (_parse_table_row tid tr)
                    (pre ++ mkRow (r_rowId row) cells' meta' :: post)) tr db1)
          | _, _ => (Ok false, db1)
          end
      | _ => (Ok false, db1)
      end
  end.

(** The words of the LWW rule.  The cell's metadata is absent, or its [ts]
    is missing or zero: *)
Definition meta_unset (cur : option CellMeta) : bool :=
  match cur with
  | None => true
  | Some m =>
      match m_ts m with
      | None => true
      | Some t => (t =? 0)%Z
      end
  end.

(** [(ts1, c1) > (ts2, c2)], lexicographically. *)
Definition lex_gt (ts1 : Z) (c1 : string) (ts2 : Z) (c2 : string) : bool :=
  (ts2 <? ts1)%Z || ((ts1 =? ts2)%Z && String.ltb c2 c1).

(** [op.ts > existing.ts], or [op.ts == existing.ts] and
    [op.clientId > existing.by]. *)
Definition beats (ts : option Z) (client_id : string) (cur : option CellMeta)
  : bool :=
  match ts, cur with
  | Some ts, Some m =>
      match m_ts m with
      | Some cts => lex_gt ts client_id cts (m_by m)
      | None => false
      end
  | _, _ => false
  end.

(** The metadata stored for column [col] of a row; entries missing at the
    end of [cellMeta] count as absent. *)
Definition stored_meta (row : Row) (col : nat) : option CellMeta :=
  default None (r_cellMeta row !! col).

(** The row once a [setCell] on column [col] was applied to it. *)
Definition written_row (row : Row) (col : nat) (value : pyval) (ts : option Z)
    (client_id : string) : Row :=
  mkRow (r_rowId row)
        (<[col := value]> (pad (r_cells row) (Z.of_nat col) (PStr "")))
        (<[col := Some (mkCellMeta value ts client_id)]>
           (pad (r_cellMeta row) (Z.of_nat col) None)).

(** The value held by column [col] of the first row [rid] of table [tid]. *)
Definition cell_value (db : Database) (tid rid : string) (col : nat)
  : option pyval :=
  tr ← db_tables db !! tid;
  row ← List.find (fun r => String.eqb (r_rowId r) rid) (tr_rows tr);
  r_cells row !! col.

(** The state after [op1] from [c1], then [op2] from [c2], were applied. *)
Definition apply_both (op1 : Operation) (c1 : string) (op2 : Operation)
    (c2 : string) (db : Database) : Database :=
  snd (_apply_operation op2 c2 (snd (_apply_operation op1 c1 db))).

(** The pair property as the specification words it: in either arrival
    order the cell ends with [v2] exactly when [(ts2, c2) > (ts1, c1)]. *)
Definition second_survives_iff_greater (db : Database) (tid rid : string)
    (col : nat) (op1 : Operation) (c1 : string) (ts1 : Z)
    (op2 : Operation) (c2 : string) (ts2 : Z) (v2 : pyval) : Prop :=
  forall final,
    final = apply_both op1 c1 op2 c2 db \/ final = apply_both op2 c2 op1 c1 db ->
    (cell_value final tid rid col = Some v2 <-> lex_gt ts2 c2 ts1 c1 = true).

(** Every row has as many cells as the table has headers. *)
Definition rows_match_headers (tr : TableRow) : bool :=
  forallb (fun r => Nat.eqb (length (r_cells r)) (length (tr_headers tr)))
          (tr_rows tr).

Definition tables_ok (db : Database) : Prop :=
  forall tid tr, db_tables db !! tid = Some tr -> rows_match_headers tr = true.




(** The direct pass to the store as the specification words it: applying
    [op] makes no [get_table] call. *)
Definition no_read_before_delete (op : Operation) (c : string) (db : Database)
  : Prop :=
  forall tid, ~ In (GetTable tid) (db_calls (snd (_apply_operation op c db))).

(** The events of other clients among [events]. *)
Definition from_other_clients (client_id : string) (events : list SyncEvent)
  : list SyncEvent :=
  List.filter (fun e => negb (String.eqb (e_clientId e) client_id)) events.


(** The Prop reading of [rows_match_headers], on the two columns of the
    JSON document. *)
Definition width_ok (headers : list pyval) (rows : list Row) : Prop :=
  Forall (fun r => length (r_cells r) = length headers) rows.

(** What one store-changing operation may do to the [tables] relation:
    nothing, delete a row, or write a row whose cells match its headers. *)
Definition tables_step (m m' : gmap string TableRow) : Prop :=
  m' = m
  \/ (exists tid, m' = delete tid m)
  \/ (exists tid tr, m' = <[tid := tr]> m /\ width_ok (tr_headers tr) (tr_rows tr)).

(** The invariant as the specification states it for one operation. *)
Definition row_width_kept (op : Operation) (client_id : string) (db : Database)
  : Prop :=
  forall db', _apply_operation op client_id db = (Ok true, db') -> tables_ok db'.

(** The operation is not a [setCell] whose column lies beyond the headers
    of its table. *)
Definition set_cell_within_headers (op : Operation) (db : Database) : Prop :=
  forall tid col tr,
    o_op op = Val "setCell" -> o_tableId op = Val tid -> o_col op = Val col ->
    db_tables db !! tid = Some tr ->
    (col < Z.of_nat (length (tr_headers tr)))%Z.

(** The event log as the store keeps it: [id] strictly increasing in append
    order, [cursor] unique, and no event under the sentinel cursor ["0"]. *)
Definition log_wf (evs : list SyncEvent) : Prop :=
  StronglySorted Z.lt (map e_id evs)
  /\ NoDup (map e_cursor evs)
  /\ Forall (fun e => e_cursor e <> "0") evs.

(** The events after [cursor], without a limit. *)
Definition events_after (cursor : string) (evs : list SyncEvent) : list SyncEvent :=
  events_since cursor (length evs) evs.

Definition latest_cursor (evs : list SyncEvent) : string :=
  match last evs with
  | Some e => e_cursor e
  | None => "0"
  end.

Definition with_rowId (op : Operation) (f : field string) : Operation :=
  mkOp (o_op op) (o_tableId op) f (o_col op) (o_value op) (o_ts op)
       (o_afterRowId op) (o_colIndex op) (o_header op) (o_name op).

Definition with_value (op : Operation) (f : field string) : Operation :=
  mkOp (o_op op) (o_tableId op) (o_rowId op) (o_col op) f (o_ts op)
       (o_afterRowId op) (o_colIndex op) (o_header op) (o_name op).


(** [op] is a [setCell] on column [col] of row [rid] of table [tid]. *)
Definition is_set_cell (op : Operation) (tid rid : string) (col : Z) : Prop :=
  o_op op = Val "setCell" /\ o_tableId op = Val tid /\ tid <> ""
  /\ o_rowId op = Val rid /\ o_col op = Val col.

(** The rows of [tr] are [pre ++ row :: post] and no other row carries the
    id of [row] (row ids are unique within a table). *)
Definition sole_row (tr : TableRow) (pre : list Row) (row : Row)
    (post : list Row) : Prop :=
  tr_rows tr = pre ++ row :: post
  /\ Forall (fun r => r_rowId r <> r_rowId row) pre
  /\ Forall (fun r => r_rowId r <> r_rowId row) post.

(** ** Sample data *)

Definition sample_hash (timestamp : Z) (client_id : string) (op : Operation)
  : string := "00000000000000aa".

Definition set_cell_op (tid rid : string) (col : Z) (v : field string)
    (ts : field Z) : Operation :=
  mkOp (Val "setCell") (Val tid) (Val rid) (Val col) v ts
       Missing Missing Missing Missing.

(** A store holding the single table ["T"]. *)
Definition sample_db (headers : list pyval) (rows : list Row)
    (faults : list bool) : Database :=
  mkDb {["T" := mkTableRow "Sheet" headers rows 0 1]} [] 1000 faults [].

Definition delete_table_op (tid : string) : Operation :=
  mkOp (Val "deleteTable") (Val tid) Missing Missing Missing (Val 1%Z)
       Missing Missing Missing Missing.

Definition add_row_op (tid rid : string) : Operation :=
  mkOp (Val "addRow") (Val tid) (Val rid) Missing Missing (Val 1%Z)
       Missing Missing Missing Missing.

(** Row ["R"] as [addRow] creates it in a one-column table. *)
Definition fresh_row : Row := mkRow "R" [PStr ""] [].

(** Row ["R"] with one cell, last written by bob at [ts]. *)
Definition row_written_by_bob (ts : Z) : Row :=
  mkRow "R" [PStr "b"] [Some (mkCellMeta (PStr "b") (Some ts) "bob")].


(** The store after dave pushed the new row ["R2"]. *)
Definition db_after_dave : Database :=
  snd (process_sync sample_hash "dave" "0" [add_row_op "T" "R2"]
         (sample_db [PStr "A"] [fresh_row] [])).

(** A log of [n] events of dave, numbered from 1. *)
Definition numbered_event (i : nat) : SyncEvent :=
  mkEvent (Z.of_nat i) (str_of_int (Z.of_nat i) ++ "_00000000000000aa")%string
          "dave" (add_row_op "T" "R2") (Z.of_nat i) true.

Definition db_with_events (n : nat) : Database :=
  mkDb {["T" := mkTableRow "Sheet" [PStr "A"] [fresh_row] 0 1]}
       (map numbered_event (seq 1 n)) 5000 [] [].



Definition db_bob_200 : Database := sample_db [PStr "A"] [row_written_by_bob 200] [].

(** ** More of the store ([backend_database.py]) *)

(** A store call the engine does not make: it takes the next scheduled
    fault like the others and is not entered in the log of engine calls. *)
Definition store_access : M unit :=
  fun db =>
    let db' f := mkDb (db_tables db) (db_events db) (db_clock db) f (db_calls db) in
    match db_faults db with
    | true :: f => (Raise StorageError, db' f)
    | false :: f => (Ok tt, db' f)
    | [] => (Ok tt, db' [])
    end.

(** [INSERT INTO tables (id, name, data, updated_at)]: [id] is the primary
    key, so an id already present makes the insert fail; [version] takes its
    default 1. *)
Definition create_table (table_data : Table) : M string :=
  let table_id := t_id table_data in
  let name := t_name table_data in
  store_access;;;
  now <- utcnow;;
  db <- get_db;;
  match db_tables db !! table_id with
  | Some _ => raise IntegrityError
  | None =>
      set_tables (<[table_id :=
        mkTableRow name (t_headers table_data) (t_rows table_data) now 1]>
        (db_tables db));;;
      ret table_id
  end.

(** Reset database: both relations are emptied and the sequence of event
    ids starts again. *)
Definition reset : M unit :=
  store_access;;;
  set_tables ∅;;;
  set_events [].

(** ** The table endpoints and the pull handler ([backend_app.py]) *)

Inductive http_detail : Type :=
| Detail (message : string)
| DetailOfError (message : string) (e : exn).

(** What a handler answers: a body, or [HTTPException(status_code, detail)]. *)
Inductive http (A : Type) : Type :=
| Http200 (body : A)
| HTTPException (status_code : Z) (detail : http_detail).
Arguments Http200 {A} body.
Arguments HTTPException {A} status_code detail.

Module App.

(** [POST /api/tables] *)
Definition create_table (table : Table) (db : Database)
  : http (string * string) * Database :=
  match create_table table db with
  | (Ok table_id, db') => (Http200 (table_id, "Table created successfully"), db')
  | (Raise _, db') => (HTTPException 500 (Detail "Failed to create table"), db')
  end.

(** [GET /api/tables/{table_id}] *)
Definition get_table (table_id : string) (db : Database) : http Table * Database :=
  match get_table table_id db with
  | (Ok (Some table), db') => (Http200 table, db')
  | (Ok None, db') => (HTTPException 404 (Detail "Table not found"), db')
  | (Raise _, db') => (HTTPException 500 (Detail "Failed to retrieve table"), db')
  end.

(** [PUT /api/tables/{table_id}] *)
Definition update_table (table_id : string) (table : Table) (db : Database)
  : http string * Database :=
  match update_table table_id table db with
  | (Ok true, db') => (Http200 "Table updated successfully", db')
  | (Ok false, db') => (HTTPException 404 (Detail "Table not found"), db')
  | (Raise _, db') => (HTTPException 500 (Detail "Failed to update table"), db')
  end.

(** [DELETE /api/tables/{table_id}] *)
Definition delete_table (table_id : string) (db : Database) : http string * Database :=
  match delete_table table_id db with
  | (Ok true, db') => (Http200 "Table deleted successfully", db')
  | (Ok false, db') => (HTTPException 404 (Detail "Table not found"), db')
  | (Raise _, db') => (HTTPException 500 (Detail "Failed to delete table"), db')
  end.

(** [GET /api/sync?since=...] *)
Definition sync_pull (since : string) (db : Database)
  : http ChangesResult * Database :=
  match get_changes_since since db with
  | (Ok result, db') => (Http200 result, db')
  | (Raise e, db') => (HTTPException 500 (DetailOfError "Sync pull failed: " e), db')
  end.

End App.

(** ** The rest of the skeleton engine ([backend_sync_engine.py]) *)
Module Skeleton.

Section SkeletonEngine.

(** The full SHA-256 digest of the client id and the serialised operation,
    taken as given. *)
Variable sha256_hex : string -> Operation -> string.

Definition _generate_cursor (client_id : string) (op : Operation) : string :=
  sha256_hex client_id op.

(** Dummy implementation. *)
Definition _get_other_client_changes (base_cursor client_id : string)
  : M (list Delta) := ret [].

(** The loop of [process_sync]: an exception of [_apply_operation] counts
    as a failure. *)
Fixpoint process_ops (client_id : string) (operations : list Operation)
    (conflicts : list ConflictEntry) (applied_ops : list Operation)
  : M (list ConflictEntry * list Operation) :=
  match operations with
  | [] => ret (conflicts, applied_ops)
  | op :: rest =>
      success <- try_except (Placeholder._apply_operation op client_id)
                            (fun _ => ret false);;
      if success then
        let cursor := _generate_cursor client_id op in
        add_sync_event cursor client_id op;;;
        process_ops client_id rest conflicts (applied_ops ++ [op])
      else
        process_ops client_id rest
          (conflicts ++ [mkConflict op "Failed to apply"]) applied_ops
  end.

Definition process_sync (client_id base_cursor : string)
    (operations : list Operation) : M SyncResult :=
  r <- process_ops client_id operations [] [];;
  latest_cursor <- get_latest_cursor;;
  other_changes <- _get_other_client_changes base_cursor client_id;;
  ret (mkSyncResult latest_cursor other_changes (fst r)).

End SkeletonEngine.

End Skeleton.

(** ** Vocabulary of the further properties *)

(** The row [addRow] creates. *)
Definition new_row (table : TableRow) (row_id : string) : Row :=
  mkRow row_id (replicate (length (tr_headers table)) (PStr "")) [].

(** The rows keep distinct ids. *)
Definition row_ids_unique (tr : TableRow) : Prop :=
  NoDup (map r_rowId (tr_rows tr)).

(** What one call of an applier on the table it was handed may do to the
    store: nothing at all, or (returning [True]) replace the stored row of
    that table by one of the next version. *)
Definition table_write (tid : string) (rows : list Row) (r : result bool)
    (db db' : Database) : Prop :=
  db_events db' = db_events db
  /\ (db_tables db' = db_tables db
      \/ exists old tr',
           db_tables db !! tid = Some old /\ r = Ok true
           /\ db_tables db' = <[tid := tr']> (db_tables db)
           /\ tr_version tr' = (tr_version old + 1)%Z
           /\ (NoDup (map r_rowId rows) -> NoDup (map r_rowId (tr_rows tr')))).

(** What applying one operation may do to the store: nothing, or (returning
    [True]) delete the table the operation names, or replace its stored row
    by one of the next version that keeps row ids distinct.  Events are
    never touched. *)
Definition apply_effect (op : Operation) (r : result bool) (db db' : Database)
  : Prop :=
  db_events db' = db_events db
  /\ (db_tables db' = db_tables db
      \/ exists tid old,
           dict_get (o_tableId op) = Some tid
           /\ db_tables db !! tid = Some old /\ r = Ok true
           /\ (db_tables db' = delete tid (db_tables db)
               \/ exists tr',
                    db_tables db' = <[tid := tr']> (db_tables db)
                    /\ tr_version tr' = (tr_version old + 1)%Z
                    /\ (row_ids_unique old -> row_ids_unique tr'))).

(** The eight operation types the engine dispatches on. *)
Definition known_op_types : list string :=
  map OperationType_value
      [SET_CELL; ADD_ROW; DELETE_ROW; ADD_COLUMN; DELETE_COLUMN; SET_HEADER;
       RENAME_TABLE; DELETE_TABLE].

(** The same row as far as the application reads it: id, cells, and the
    metadata of every column. *)
Definition same_row (r r' : Row) : Prop :=
  r_rowId r' = r_rowId r /\ r_cells r' = r_cells r
  /\ forall k, stored_meta r' k = stored_meta r k.

(** Most recently updated first. *)
Definition updated_desc (a b : Table) : Prop := (t_updatedAt b <= t_updatedAt a)%Z.

(** ** Further sample data *)

Definition add_row_after (tid rid after : string) : Operation :=
  mkOp (Val "addRow") (Val tid) (Val rid) Missing Missing (Val 1%Z)
       (Val after) Missing Missing Missing.

Definition delete_row_op (tid rid : string) : Operation :=
  mkOp (Val "deleteRow") (Val tid) (Val rid) Missing Missing (Val 1%Z)
       Missing Missing Missing Missing.

Definition add_column_op (tid : string) (col_index : field Z)
    (header : field string) : Operation :=
  mkOp (Val "addColumn") (Val tid) Missing Missing Missing (Val 1%Z)
       Missing col_index header Missing.

Definition delete_column_op (tid : string) (col_index : field Z) : Operation :=
  mkOp (Val "deleteColumn") (Val tid) Missing Missing Missing (Val 1%Z)
       Missing col_index Missing Missing.

Definition set_header_op (tid : string) (col_index : field Z)
    (header : field string) : Operation :=
  mkOp (Val "setHeader") (Val tid) Missing Missing Missing (Val 1%Z)
       Missing col_index header Missing.

Definition rename_table_op (tid : string) (name : field string) : Operation :=
  mkOp (Val "renameTable") (Val tid) Missing Missing Missing (Val 1%Z)
       Missing Missing Missing name.

(** The stored row of table ["T"] in [sample_db]. *)
Definition sample_table (headers : list pyval) (rows : list Row) : TableRow :=
  mkTableRow "Sheet" headers rows 0 1.

Definition two_rows : list Row :=
  [mkRow "R1" [PStr "a"] []; mkRow "R2" [PStr "b"] []].

Definition sample_hex (client_id : string) (op : Operation) : string :=
  "00000000000000aa00000000000000aa00000000000000aa00000000000000aa".

(** ** More vocabulary *)

(** Every stored table keeps its row ids distinct. *)
Definition all_row_ids_unique (db : Database) : Prop :=
  forall tid tr, db_tables db !! tid = Some tr -> row_ids_unique tr.

(** The applier [_apply_operation] dispatches to for an operation type. *)
Definition applier (ty : OperationType) (table : option Table) (table_id : string)
    (op : Operation) (client_id : string) : M bool :=
  match ty with
  | SET_CELL => _apply_set_cell table op client_id
  | ADD_ROW => _apply_add_row table op client_id
  | DELETE_ROW => _apply_delete_row table op client_id
  | ADD_COLUMN => _apply_add_column table op client_id
  | DELETE_COLUMN => _apply_delete_column table op client_id
  | SET_HEADER => _apply_set_header table op client_id
  | RENAME_TABLE => _apply_rename_table table op client_id
  | DELETE_TABLE => _apply_delete_table table_id
  end.

(** [rows'] is [rows] with [new] directly after the first row of id [a], or
    at the end when no row has that id. *)
Definition placed_after (a : string) (new : Row) (rows rows' : list Row) : Prop :=
  (exists pre r post,
     rows = pre ++ r :: post /\ r_rowId r = a
     /\ Forall (fun x => r_rowId x <> a) pre
     /\ rows' = pre ++ r :: new :: post)
  \/ (Forall (fun x => r_rowId x <> a) rows /\ rows' = rows ++ [new]).

(** [op] is of type [ty] and names the table [tid]. *)
Definition is_op_on (op : Operation) (ty : OperationType) (tid : string) : Prop :=
  o_op op = Val (OperationType_value ty) /\ o_tableId op = Val tid /\ tid <> "".

(** An event as a push of [client_id] writes it. *)
Definition event_of_push (client_id : string) (e : SyncEvent) : Prop :=
  e_clientId e = client_id /\ e_applied e = true
  /\ operation_is_empty (e_operation e) = false.

(** A pull with [cursor] brings no deltas and the same cursor. *)
Definition pull_is_empty (cursor : string) (db : Database) : Prop :=
  exists tables db',
    get_changes_since cursor db = (Ok (mkChanges cursor [] tables), db').

(** The tables other than [tid] are the same in both stores. *)
Definition others_kept (tid : string) (db db' : Database) : Prop :=
  forall other, other <> tid -> db_tables db' !! other = db_tables db !! other.

(** [tables] lists every stored table of [db] once, as [get_table] would
    return it. *)
Definition lists_all_tables (tables : list Table) (db : Database) : Prop :=
  NoDup (map t_id tables)
  /\ forall t, In t tables
       <-> exists tr, db_tables db !! t_id t = Some tr
                      /\ t = _parse_table_row (t_id t) tr.

(** ** More sample data *)

Definition db_two_rows : Database := sample_db [PStr "A"] two_rows [].

(** A store holding the tables ["T"] and ["U"]. *)
Definition two_table_db : Database :=
  mkDb {["T" := sample_table [PStr "A"] two_rows;
         "U" := mkTableRow "Budget" [PStr "B"] [] 7 3]} [] 1000 [] [].

(** An operation of a type the engine does not know. *)
Definition move_row_op : Operation :=
  mkOp (Val "moveRow") (Val "T") (Val "R1") Missing Missing (Val 1%Z)
       Missing Missing Missing Missing.

(** A request body whose [id], [updatedAt] and [version] are its own. *)
Definition budget_table : Table :=
  mkTable "U" "Budget" [PStr "X"] [mkRow "r" [PStr "1"] []] 77 9.

(** A request body under the id of the stored table. *)
Definition clashing_table : Table := mkTable "T" "Other" [] [] 0 5.

(** carol pushes a new row and a write to a row that does not exist, on a
    store whose log holds two events of dave. *)
Definition carol_ops : list Operation :=
  [add_row_op "T" "R3"; set_cell_op "T" "R9" 0 (Val "x") (Val 5%Z)].

Definition carol_push : result SyncResult * Database :=
  process_sync sample_hash "carol" "0" carol_ops (db_with_events 2).

Definition carol_push_result : SyncResult :=
  Eval vm_compute in
    match fst carol_push with
    | Ok r => r
    | Raise _ => mkSyncResult "" [] []
    end.


(** ** The push handler ([backend_app.py]) and the engine it runs

    [backend_app.py] imports [SyncEngine] from [backend_sync_engine], the
    skeleton engine, and hands it [request.ops]: the [ChangeOp] objects of
    the request, not dictionaries. *)

(** [ChangeOp], the model of a pushed operation. *)
Record ChangeOp : Type := mkChangeOp {
  co_op : OperationType;
  co_tableId : string;
  co_rowId : option string;
  co_col : option Z;
  co_value : option string;
  co_afterRowId : option string;
  co_colIndex : option Z;
  co_header : option string;
  co_name : option string;
  co_ts : Z }.


(** An entry of the engine's [conflicts]: the dictionary
    [{"operation": op, "reason": reason}]. *)
Record PushConflict : Type := mkPushConflict {
  pc_operation : ChangeOp;
  pc_reason : string }.

(** The dictionary [process_sync] returns. *)
Record PushResult : Type := mkPushResult {
  pr_cursor : string;
  pr_deltas : list Delta;
  pr_conflicts : list PushConflict }.

Module Served.

(** [op.get(key)] on a [ChangeOp]: the model has no attribute [get], the
    lookup raises. *)
Definition ChangeOp_get (op : ChangeOp) (key : string) : M (option string) :=
  raise AttributeError.

(** The placeholder appliers: [pass] returns [None]. *)
Definition placeholder (table : option Table) (op : ChangeOp)
    (client_id : string) : M bool := ret false.

Definition _apply_operation (op : ChangeOp) (client_id : string) : M bool :=
  op_type <- ChangeOp_get op "op";;
  table_id <- ChangeOp_get op "tableId";;
  if negb (truthy op_type) || negb (truthy table_id) then ret false
  else
    let op_type := default "" op_type in
    let table_id := default "" table_id in
    table <- get_table table_id;;
    try_except
      (if is_op op_type SET_CELL then placeholder table op client_id
       else if is_op op_type ADD_ROW then placeholder table op client_id
       else if is_op op_type DELETE_ROW then placeholder table op client_id
       else if is_op op_type ADD_COLUMN then placeholder table op client_id
       else if is_op op_type DELETE_COLUMN then placeholder table op client_id
       else if is_op op_type SET_HEADER then placeholder table op client_id
       else if is_op op_type RENAME_TABLE then placeholder table op client_id
       else ret false)
      (fun _ => ret false).

(** [json.dumps(op)] on an object that is no JSON value raises, in
    [_generate_cursor] and in [add_sync_event] alike. *)
Definition _generate_cursor (client_id : string) (op : ChangeOp) : M string :=
  raise TypeError.

Definition add_sync_event (cursor client_id : string) (operation : ChangeOp)
  : M Z := raise TypeError.

(** Dummy implementation. *)
Definition _get_other_client_changes (base_cursor client_id : string)
  : M (list Delta) := ret [].

(** The loop of [process_sync]: an exception of [_apply_operation] counts
    as a failure. *)
Fixpoint process_ops (client_id : string) (operations : list ChangeOp)
    (conflicts : list PushConflict) (applied_ops : list ChangeOp)
  : M (list PushConflict * list ChangeOp) :=
  match operations with
  | [] => ret (conflicts, applied_ops)
  | op :: rest =>
      success <- try_except (_apply_operation op client_id) (fun _ => ret false);;
      if success then
        cursor <- _generate_cursor client_id op;;
        add_sync_event cursor client_id op;;;
        process_ops client_id rest conflicts (applied_ops ++ [op])
      else
        process_ops client_id rest
          (conflicts ++ [mkPushConflict op "Failed to apply"]) applied_ops
  end.

Definition process_sync (client_id base_cursor : string)
    (operations : list ChangeOp) : M PushResult :=
  r <- process_ops client_id operations [] [];;
  latest_cursor <- get_latest_cursor;;
  other_changes <- _get_other_client_changes base_cursor client_id;;
  ret (mkPushResult latest_cursor other_changes (fst r)).

End Served.








(** ** Vocabulary of the claims on [setCell], failures and deltas *)

(** The column [cells[col]] designates: [col] itself, or, for a negative
    [col], counted back from the end of the row's cells. *)
Definition designated_column (row : Row) (col : Z) : nat :=
  if (0 <=? col)%Z then Z.to_nat col
  else Z.to_nat (Z.of_nat (length (r_cells row)) + col).

(** [col] designates a cell of [row] together with its metadata: any
    [col >= 0] (cells and metadata are padded up to it), or a negative
    [col] that stays within the row, when the row holds one metadata entry
    per cell. *)
Definition col_in_reach (row : Row) (col : Z) : Prop :=
  (0 <= col)%Z
  \/ (length (r_cellMeta row) = length (r_cells row)
      /\ (- Z.of_nat (length (r_cells row)) <= col)%Z).









(** ** Sample data of these claims *)



(** Row ["R"] with one cell, written by bob at 150. *)
Definition db_bob_150 : Database := sample_db [PStr "A"] [row_written_by_bob 150] [].




(** * Properties *)

(** ** Python lists *)

Lemma py_index_lt n i k : py_index n i = Some k -> k < n.
Proof.
  unfold py_index. repeat case_match; intros [= <-]; lia.
Qed.

Lemma py_index_nonneg n i :
  (0 <= i < Z.of_nat n)%Z -> py_index n i = Some (Z.to_nat i).
Proof.
  intros H. unfold py_index.
  destruct (Z.leb_spec 0 i); [|lia]. destruct (Z.ltb_spec i (Z.of_nat n)); [done|lia].
Qed.

Lemma pad_length {A} (l : list A) col d :
  length (pad l col d) = Nat.max (length l) (Z.to_nat (col + 1)).
Proof. unfold pad. rewrite length_app, length_replicate. lia. Qed.

Lemma pad_id {A} (l : list A) col d :
  (col < Z.of_nat (length l))%Z -> pad l col d = l.
Proof.
  intros H. unfold pad. replace (Z.to_nat _) with 0 by lia. apply app_nil_r.
Qed.

Lemma py_getitem_pad {A} (l : list A) col d :
  (0 <= col)%Z -> exists x, py_getitem (pad l col d) col = Ok x.
Proof.
  intros H. unfold py_getitem.
  rewrite py_index_nonneg by (rewrite pad_length; lia).
  destruct (lookup_lt_is_Some_2 (pad l col d) (Z.to_nat col)) as [x Hx].
  { rewrite pad_length. lia. }
  rewrite Hx. eauto.
Qed.

Lemma py_setitem_getitem {A} (l l' : list A) i x :
  py_setitem l i x = Ok l' -> py_getitem l' i = Ok x /\ length l' = length l.
Proof.
  unfold py_setitem, py_getitem. destruct (py_index (length l) i) as [k|] eqn:E; [|done].
  intros [= <-]. rewrite length_insert, E.
  rewrite list_lookup_insert_eq by (eapply py_index_lt; eauto). done.
Qed.

Lemma py_getitem_setitem {A} (l : list A) i x y :
  py_getitem l i = Ok y -> exists l', py_setitem l i x = Ok l'.
Proof.
  unfold py_getitem, py_setitem. destruct (py_index (length l) i); [eauto|done].
Qed.

Lemma py_setitem_pad_cells {A B} (cells : list A) (meta : list B) col d d' x y :
  length meta <= length cells ->
  py_getitem (pad meta col d') col = Ok y ->
  exists cells', py_setitem (pad cells col d) col x = Ok cells'.
Proof.
  intros Hlen Hget. unfold py_setitem.
  destruct (Z.leb_spec 0 col) as [Hc|Hc].
  - rewrite py_index_nonneg by (rewrite pad_length; lia). eauto.
  - revert Hget. unfold py_getitem. rewrite !pad_id by lia.
    unfold py_index. destruct (Z.leb_spec 0 col); [lia|].
    destruct (Z.leb_spec (- Z.of_nat (length meta)) col); [|done].
    destruct (Z.leb_spec (- Z.of_nat (length cells)) col); [eauto|lia].
Qed.

(** ** The [setCell] applier *)

Lemma set_cell_rows_skip table pre : forall seen rest rid col v ts c,
  Forall (fun r => r_rowId r <> rid) pre ->
  set_cell_rows table seen (pre ++ rest) rid col v ts c
  = set_cell_rows table (seen ++ pre) rest rid col v ts c.
Proof.
  induction pre as [|r pre IH]; intros seen rest rid col v ts c H; simpl.
  - by rewrite app_nil_r.
  - inversion H as [|? ? Hr Hpre]; subst.
    apply String.eqb_neq in Hr. rewrite Hr, IH by done.
    by rewrite <- app_assoc.
Qed.

Lemma set_cell_rows_absent table rows : forall seen rid col v ts c,
  Forall (fun r => r_rowId r <> rid) rows ->
  set_cell_rows table seen rows rid col v ts c = ret false.
Proof.
  intros. rewrite <- (app_nil_r rows), set_cell_rows_skip by done. done.
Qed.

Lemma set_cell_rows_unique table seen pre row post col v ts c db :
  Forall (fun r => r_rowId r <> r_rowId row) pre ->
  Forall (fun r => r_rowId r <> r_rowId row) post ->
  set_cell_rows table seen (pre ++ row :: post) (r_rowId row) col v ts c db =
    match py_getitem (pad (r_cellMeta row) col None) col with
    | Raise e => (Raise e, db)
    | Ok cur =>
        match _should_apply_change cur ts c with
        | Raise e => (Raise e, db)
        | Ok false => (Ok false, db)
        | Ok true =>
            match py_setitem (pad (r_cells row) col (PStr "")) col v with
            | Raise e => (Raise e, db)
            | Ok cells' =>
                match py_setitem (pad (r_cellMeta row) col None) col
                        (Some (mkCellMeta v ts c)) with
                | Raise e => (Raise e, db)
                | Ok meta' =>
                    update_table (t_id table)
                      (with_rows table
                         (seen ++ pre ++ mkRow (r_rowId row) cells' meta' :: post)) db
                end
            end
        end
    end.
Proof.
  intros Hpre Hpost. rewrite set_cell_rows_skip by done. simpl.
  rewrite String.eqb_refl. unfold bind, lift.
  destruct (py_getitem _ col) as [cur|e]; [|done].
  destruct (_should_apply_change cur ts c) as [[|]|e]; [| |done].
  - destruct (py_setitem _ col v) as [cells'|e]; [|done].
    destruct (py_setitem _ col (Some _)) as [meta'|e]; [|done].
    by rewrite <- app_assoc.
  - by rewrite set_cell_rows_absent.
Qed.

(** ** Store calls that meet no fault *)

Lemma truthy_Some s : s <> "" -> truthy (Some s) = true.
Proof. intros H. simpl. apply String.eqb_neq in H. by rewrite H. Qed.

Lemma storage_call_ok c db :
  db_faults db = [] -> storage_call c db = (Ok tt, log_call c db).
Proof. intros H. unfold storage_call, log_call. by rewrite H. Qed.

Lemma get_table_ok tid db :
  db_faults db = [] ->
  get_table tid db
  = (Ok (_parse_table_row tid <$> db_tables db !! tid), log_call (GetTable tid) db).
Proof.
  intros H. unfold get_table, bind. by rewrite storage_call_ok.
Qed.

Lemma update_table_ok tid t old db :
  db_faults db = [] -> db_tables db !! tid = Some old ->
  update_table tid t db = (Ok true, updated_db tid t old db).
Proof.
  intros Hf Ht. unfold update_table, bind. rewrite storage_call_ok by done.
  unfold utcnow, get_db. simpl. rewrite Ht. simpl. unfold updated_db. by rewrite Hf.
Qed.

Lemma apply_set_cell_run op c db tid tr rid col :
  o_op op = Val "setCell" -> o_tableId op = Val tid -> tid <> "" ->
  o_rowId op = Val rid -> o_col op = Val col ->
  db_faults db = [] -> db_tables db !! tid = Some tr ->
  _apply_operation op c db
  = try_except
      (set_cell_rows (_parse_table_row tid tr) [] (tr_rows tr) rid col
         (dict_get_str (o_value op) (PStr "")) (dict_get (o_ts op)) c)
      (fun _ => ret false) (log_call (GetTable tid) db).
Proof.
  intros Hop Htid Hne Hrid Hcol Hf Ht.
  unfold _apply_operation, try_except. rewrite Hop, Htid. simpl.
  apply String.eqb_neq in Hne. rewrite Hne. simpl.
  unfold bind at 1. rewrite get_table_ok by done. rewrite Ht. simpl.
  unfold _apply_set_cell. rewrite Hrid, Hcol. done.
Qed.

Lemma apply_set_cell_unique op c db tid tr pre row post col :
  is_set_cell op tid (r_rowId row) col ->
  db_faults db = [] -> db_tables db !! tid = Some tr ->
  sole_row tr pre row post ->
  _apply_operation op c db
  = set_cell_result db tid tr pre row post col
      (dict_get_str (o_value op) (PStr "")) (dict_get (o_ts op)) c.
Proof.
  intros (Hop & Htid & Hne & Hrid & Hcol) Hf Ht (Hrows & Hpre & Hpost).
  erewrite apply_set_cell_run by eauto.
  unfold try_except, set_cell_result. rewrite Hrows.
  rewrite set_cell_rows_unique by done.
  destruct (py_getitem _ col) as [cur|e]; [|done].
  destruct (_should_apply_change cur _ c) as [[|]|e]; [| done|done].
  destruct (py_setitem _ col _) as [cells'|e]; [|done].
  destruct (py_setitem _ col (Some _)) as [meta'|e]; [|done].
  simpl app. erewrite update_table_ok; [done|done|].
  simpl. done.
Qed.

(** The comparison of [_should_apply_change] is the rule in words; it
    raises only when the rule says no (a missing [ts] beats nothing). *)
Lemma should_apply_change_words cur ts c :
  match _should_apply_change cur ts c with
  | Ok b => b = meta_unset cur || beats ts c cur
  | Raise _ => meta_unset cur || beats ts c cur = false
  end.
Proof.
  unfold _should_apply_change, meta_unset, beats, lex_gt.
  destruct cur as [m|]; [|by destruct ts].
  destruct (m_ts m) as [cts|]; [|by destruct ts].
  destruct (Z.eqb_spec cts 0) as [->|Hz]; [by destruct ts|].
  destruct ts as [rts|]; [|done]. simpl.
  destruct (Z.ltb_spec cts rts); [done|].
  destruct (Z.eqb_spec rts cts); done.
Qed.

Lemma updated_db_lookup tid t old db :
  db_tables (updated_db tid t old db) !! tid
  = Some (mkTableRow (t_name t) (t_headers t) (t_rows t) (db_clock db)
                     (tr_version old + 1)).
Proof. unfold updated_db. simpl. apply lookup_insert_eq. Qed.

(** ** A [setCell] on a column given as a natural number *)

Lemma py_getitem_nat {A} (l : list A) (k : nat) :
  py_getitem l (Z.of_nat k)
  = match l !! k with Some x => Ok x | None => Raise IndexError end.
Proof.
  unfold py_getitem. destruct (l !! k) as [x|] eqn:E.
  - rewrite py_index_nonneg, Nat2Z.id, E; [done|].
    apply lookup_lt_Some in E. lia.
  - apply lookup_ge_None in E. unfold py_index.
    destruct (Z.leb_spec 0 (Z.of_nat k)); [|lia].
    destruct (Z.ltb_spec (Z.of_nat k) (Z.of_nat (length l))); [lia|done].
Qed.

Lemma py_setitem_pad_nat {A} (l : list A) (k : nat) d x :
  py_setitem (pad l (Z.of_nat k) d) (Z.of_nat k) x
  = Ok (<[k := x]> (pad l (Z.of_nat k) d)).
Proof.
  unfold py_setitem. rewrite py_index_nonneg, Nat2Z.id; [done|].
  rewrite pad_length. lia.
Qed.

Lemma pad_lookup_nat {A} (l : list (option A)) (k : nat) :
  pad l (Z.of_nat k) None !! k = Some (default None (l !! k)).
Proof.
  unfold pad. destruct (l !! k) as [x|] eqn:E.
  - by rewrite lookup_app_l, E by (by eapply lookup_lt_Some).
  - apply lookup_ge_None in E. rewrite lookup_app_r by done.
    simpl. apply lookup_replicate. split; [done|]. lia.
Qed.

Lemma set_cell_nat_outcome op c db tid tr pre row post (col : nat) :
  is_set_cell op tid (r_rowId row) (Z.of_nat col) ->
  db_faults db = [] -> db_tables db !! tid = Some tr ->
  sole_row tr pre row post ->
  let value := dict_get_str (o_value op) (PStr "") in
  let ts := dict_get (o_ts op) in
  let applies := meta_unset (stored_meta row col) || beats ts c (stored_meta row col) in
  _apply_operation op c db
  = (Ok applies,
     if applies then
       updated_db tid
         (with_rows (_parse_table_row tid tr)
            (pre ++ written_row row col value ts c :: post))
         tr (log_call (GetTable tid) db)
     else log_call (GetTable tid) db).
Proof.
  intros Hop Hf Ht Hsole value ts applies.
  erewrite apply_set_cell_unique by eauto.
  unfold set_cell_result. fold value ts.
  rewrite py_getitem_nat, pad_lookup_nat. fold (stored_meta row col).
  pose proof (should_apply_change_words (stored_meta row col) ts c) as Hw.
  fold applies in Hw.
  destruct (_should_apply_change _ ts c) as [b|e].
  - subst b. destruct applies; [|done].
    by rewrite !py_setitem_pad_nat.
  - by rewrite Hw.
Qed.

Lemma find_sole_row (pre post : list Row) row :
  Forall (fun r => r_rowId r <> r_rowId row) pre ->
  List.find (fun r => String.eqb (r_rowId r) (r_rowId row)) (pre ++ row :: post)
  = Some row.
Proof.
  induction 1 as [|r pre Hr _ IH]; simpl.
  - by rewrite String.eqb_refl.
  - apply String.eqb_neq in Hr. by rewrite Hr.
Qed.

Lemma written_row_cell row col value ts c :
  r_cells (written_row row col value ts c) !! col = Some value.
Proof.
  simpl. apply list_lookup_insert_eq. rewrite pad_length. lia.
Qed.

Lemma written_row_meta row col value ts c :
  stored_meta (written_row row col value ts c) col
  = Some (mkCellMeta value ts c).
Proof.
  unfold stored_meta. simpl.
  rewrite list_lookup_insert_eq; [done|]. rewrite pad_length. lia.
Qed.

Lemma ltb_antisym (c1 c2 : string) :
  c1 <> c2 -> String.ltb c2 c1 = negb (String.ltb c1 c2).
Proof.
  intros Hne. unfold String.ltb. rewrite (String.compare_antisym c2 c1).
  destruct (String.compare c1 c2) eqn:E; [|done|done].
  by apply String.compare_eq_iff in E.
Qed.

Lemma lex_gt_antisym ts1 c1 ts2 c2 :
  c1 <> c2 -> lex_gt ts1 c1 ts2 c2 = negb (lex_gt ts2 c2 ts1 c1).
Proof.
  intros Hne. unfold lex_gt. rewrite (ltb_antisym c1 c2) by done.
  destruct (Z.ltb_spec ts2 ts1), (Z.ltb_spec ts1 ts2),
    (Z.eqb_spec ts1 ts2), (Z.eqb_spec ts2 ts1); simpl; try lia; done.
Qed.

(** ** C3: rows as wide as the headers *)

Lemma rows_match_headers_width tr :
  rows_match_headers tr = true <-> width_ok (tr_headers tr) (tr_rows tr).
Proof.
  unfold rows_match_headers, width_ok. rewrite forallb_forall, Forall_forall.
  split; intros H r Hr.
  - apply Nat.eqb_eq, H. by apply list_elem_of_In.
  - apply Nat.eqb_eq, H. by apply list_elem_of_In.
Qed.

Lemma tables_step_ok db db' :
  tables_ok db -> tables_step (db_tables db) (db_tables db') -> tables_ok db'.
Proof.
  intros Hok [Heq|[[tid Heq]|(tid & tr & Heq & Hw)]] k t; rewrite Heq.
  - apply Hok.
  - intros [_ H]%lookup_delete_Some. by eapply Hok.
  - intros [[_ <-]|[_ H]]%lookup_insert_Some.
    + by apply rows_match_headers_width.
    + by eapply Hok.
Qed.

Lemma storage_call_tables c db r db' :
  storage_call c db = (r, db') ->
  db_tables db' = db_tables db /\ db_events db' = db_events db.
Proof.
  unfold storage_call. destruct (db_faults db) as [|[|] f]; intros [= <- <-]; done.
Qed.

Lemma get_table_inv tid db r db' :
  get_table tid db = (r, db') ->
  db_tables db' = db_tables db /\ db_events db' = db_events db
  /\ (forall tbl, r = Ok tbl -> tbl = _parse_table_row tid <$> db_tables db !! tid).
Proof.
  unfold get_table, bind. destruct (storage_call _ db) as [[[]|e] db1] eqn:E;
    apply storage_call_tables in E as [Ht He].
  - unfold get_db, ret. intros [= <- <-]. rewrite Ht. repeat split; try done.
    by intros tbl [= <-].
  - intros [= <- <-]. done.
Qed.

Lemma update_table_step tid t db r db' :
  update_table tid t db = (r, db') ->
  width_ok (t_headers t) (t_rows t) ->
  tables_step (db_tables db) (db_tables db').
Proof.
  unfold update_table, bind. destruct (storage_call _ db) as [[[]|e] db1] eqn:E;
    apply storage_call_tables in E as [Ht He].
  - unfold utcnow, get_db. simpl. rewrite Ht.
    destruct (db_tables db !! tid) as [old|]; simpl; intros [= <- <-] Hw; simpl.
    + right. right. eexists _, _. split; [done|]. done.
    + left. done.
  - intros [= <- <-] _. by left.
Qed.

Lemma delete_table_step tid db r db' :
  delete_table tid db = (r, db') -> tables_step (db_tables db) (db_tables db').
Proof.
  unfold delete_table, bind. destruct (storage_call _ db) as [[[]|e] db1] eqn:E;
    apply storage_call_tables in E as [Ht He].
  - unfold get_db. rewrite Ht.
    destruct (db_tables db !! tid) as [old|]; simpl; intros [= <- <-]; simpl.
    + right. left. eauto.
    + by left.
  - intros [= <- <-]. by left.
Qed.

Lemma py_setitem_length {A} (l l' : list A) i x :
  py_setitem l i x = Ok l' -> length l' = length l.
Proof. intros H. by apply py_setitem_getitem in H as [_ H]. Qed.

Lemma set_cell_rows_step table rows : forall seen rid col v ts c db r db',
  width_ok (t_headers table) (seen ++ rows) ->
  (col < Z.of_nat (length (t_headers table)))%Z ->
  set_cell_rows table seen rows rid col v ts c db = (r, db') ->
  tables_step (db_tables db) (db_tables db').
Proof.
  induction rows as [|row rest IH]; intros seen rid col v ts c db r db' Hw Hcol; simpl.
  - intros [= <- <-]. by left.
  - assert (Hrow : length (r_cells row) = length (t_headers table)).
    { apply Forall_app in Hw as [_ Hw]. by inversion Hw. }
    destruct (String.eqb (r_rowId row) rid).
    + unfold bind, lift. rewrite (pad_id (r_cells row)) by lia.
      destruct (py_getitem _ col) as [cur|e]; [|intros [= <- <-]; by left].
      destruct (_should_apply_change cur ts c) as [[|]|e];
        [| |intros [= <- <-]; by left].
      * destruct (py_setitem (r_cells row) col v) as [cells'|e] eqn:Ec;
          [|intros [= <- <-]; by left].
        destruct (py_setitem _ col (Some _)) as [meta'|e];
          [|intros [= <- <-]; by left].
        intros Hu. eapply update_table_step; [exact Hu|]. simpl.
        apply Forall_app in Hw as [Hs Hr]. inversion Hr; subst.
        apply Forall_app. split; [done|]. constructor; [|done]. simpl.
        apply py_setitem_length in Ec. lia.
      * apply IH; [|done]. rewrite <- app_assoc. simpl.
        apply Forall_app in Hw as [Hs Hr]. inversion Hr; subst.
        apply Forall_app. split; [done|]. constructor; done.
    + apply IH; [|done]. by rewrite <- app_assoc.
Qed.

Lemma insert_after_width headers after new_row rows :
  width_ok headers rows -> length (r_cells new_row) = length headers ->
  width_ok headers (insert_after after new_row rows).
Proof.
  intros Hw Hn. induction Hw as [|r rows Hr Hw IH]; simpl.
  - by constructor.
  - destruct (String.eqb (r_rowId r) after); repeat constructor; done.
Qed.

Lemma filter_width headers (f : Row -> bool) rows :
  width_ok headers rows -> width_ok headers (List.filter f rows).
Proof.
  induction 1 as [|r rows Hr Hw IH]; simpl; [constructor|].
  destruct (f r); [by constructor|done].
Qed.

Lemma length_insert_or_append {A} col_index (x : A) l :
  length (insert_or_append col_index x l) = S (length l).
Proof.
  unfold insert_or_append, list_insert_at.
  destruct (_ && _); rewrite length_app; simpl.
  - rewrite length_take, length_drop. lia.
  - lia.
Qed.

Lemma length_list_pop {A} i (l : list A) :
  i < length l -> S (length (list_pop i l)) = length l.
Proof.
  intros H. unfold list_pop. rewrite length_app, length_take, length_drop. lia.
Qed.

Ltac unchanged := intros [= <- <-]; by left.

Lemma apply_add_row_step table op c db r db' :
  width_ok (t_headers table) (t_rows table) ->
  _apply_add_row (Some table) op c db = (r, db') ->
  tables_step (db_tables db) (db_tables db').
Proof.
  intros Hw. unfold _apply_add_row.
  destruct (negb (truthy _)); [unchanged|].
  destruct (existsb _ _); [unchanged|].
  intros Hu. eapply update_table_step; [exact Hu|]. simpl.
  destruct (truthy (dict_get (o_afterRowId op))).
  - apply insert_after_width; [done|]. simpl. apply length_replicate.
  - apply Forall_app. split; [done|]. repeat constructor. simpl.
    apply length_replicate.
Qed.

Lemma apply_delete_row_step table op c db r db' :
  width_ok (t_headers table) (t_rows table) ->
  _apply_delete_row (Some table) op c db = (r, db') ->
  tables_step (db_tables db) (db_tables db').
Proof.
  intros Hw. unfold _apply_delete_row.
  destruct (negb (truthy _)); [unchanged|].
  intros Hu. eapply update_table_step; [exact Hu|]. simpl.
  by apply filter_width.
Qed.

Lemma apply_add_column_step table op c db r db' :
  width_ok (t_headers table) (t_rows table) ->
  _apply_add_column (Some table) op c db = (r, db') ->
  tables_step (db_tables db) (db_tables db').
Proof.
  intros Hw. unfold _apply_add_column.
  destruct (dict_get_int _ _) as [col_index|]; [|unchanged].
  intros Hu. eapply update_table_step; [exact Hu|]. simpl.
  unfold width_ok. rewrite Forall_map. simpl.
  eapply Forall_impl; [exact Hw|]. intros row Hr. simpl in *.
  rewrite !length_insert_or_append. by rewrite Hr.
Qed.

Lemma apply_delete_column_step table op c db r db' :
  width_ok (t_headers table) (t_rows table) ->
  _apply_delete_column (Some table) op c db = (r, db') ->
  tables_step (db_tables db) (db_tables db').
Proof.
  intros Hw. unfold _apply_delete_column.
  destruct (dict_get _) as [col_index|]; [|unchanged].
  destruct (Z.ltb_spec col_index 0); [unchanged|].
  destruct (Z.leb_spec (Z.of_nat (length (t_headers table))) col_index);
    [unchanged|]. simpl.
  intros Hu. eapply update_table_step; [exact Hu|]. simpl.
  unfold width_ok. rewrite Forall_map.
  eapply Forall_impl; [exact Hw|]. intros row Hr. simpl in *.
  unfold pop_if_in_range.
  destruct (Z.ltb_spec col_index (Z.of_nat (length (r_cells row)))); [|lia].
  pose proof (length_list_pop (Z.to_nat col_index) (r_cells row)).
  pose proof (length_list_pop (Z.to_nat col_index) (t_headers table)).
  lia.
Qed.

Lemma apply_set_header_step table op c db r db' :
  width_ok (t_headers table) (t_rows table) ->
  _apply_set_header (Some table) op c db = (r, db') ->
  tables_step (db_tables db) (db_tables db').
Proof.
  intros Hw. unfold _apply_set_header.
  destruct (dict_get _) as [col_index|]; [|unchanged].
  destruct (_ && _); [|unchanged].
  intros Hu. eapply update_table_step; [exact Hu|]. simpl.
  unfold width_ok. by setoid_rewrite length_insert.
Qed.

Lemma apply_rename_table_step table op c db r db' :
  width_ok (t_headers table) (t_rows table) ->
  _apply_rename_table (Some table) op c db = (r, db') ->
  tables_step (db_tables db) (db_tables db').
Proof.
  intros Hw. unfold _apply_rename_table.
  destruct (negb (truthy _)); [unchanged|].
  intros Hu. by eapply update_table_step.
Qed.

Lemma apply_set_cell_step table op c db r db' :
  width_ok (t_headers table) (t_rows table) ->
  (forall col, o_col op = Val col -> (col < Z.of_nat (length (t_headers table)))%Z) ->
  _apply_set_cell (Some table) op c db = (r, db') ->
  tables_step (db_tables db) (db_tables db').
Proof.
  intros Hw Hcol. unfold _apply_set_cell.
  destruct (o_rowId op) as [| |rid]; simpl; [unchanged|unchanged|].
  destruct (o_col op) as [| |col]; simpl; [unchanged|unchanged|].
  apply set_cell_rows_step; [done|]. by apply Hcol.
Qed.

Lemma dict_get_Some {A} (f : field A) a : dict_get f = Some a -> f = Val a.
Proof. destruct f; simpl; congruence. Qed.

Lemma apply_operation_step op c db r db' :
  tables_ok db -> set_cell_within_headers op db ->
  _apply_operation op c db = (r, db') ->
  tables_step (db_tables db) (db_tables db').
Proof.
  intros Hok Hguard. unfold _apply_operation, try_except.
  match goal with |- context [let (_, _) := ?m db in _] =>
    destruct (m db) as [r0 db0] eqn:E end.
  intros Hr. assert (db0 = db') as -> by (destruct r0; unfold ret in Hr; congruence).
  clear Hr r. revert E.
  destruct (dict_get (o_op op)) as [op_type|] eqn:Eop; simpl; [|unchanged].
  destruct (dict_get (o_tableId op)) as [tid|] eqn:Etid; simpl;
    [|rewrite orb_true_r; unchanged].
  destruct (negb (negb (op_type =? "")) || negb (negb (tid =? "")))%bool;
    [unchanged|].
  unfold bind at 1.
  destruct (get_table tid db) as [[tbl|e] db1] eqn:Eg;
    apply get_table_inv in Eg as (Ht & _ & Htbl).
  2: { intros [= <- <-]. left. done. }
  rewrite <- Ht. specialize (Htbl _ eq_refl).
  assert (Hw : forall table, tbl = Some table ->
            width_ok (t_headers table) (t_rows table)
            /\ exists tr, db_tables db !! tid = Some tr
                          /\ t_headers table = tr_headers tr).
  { intros table ->. destruct (db_tables db !! tid) as [tr|] eqn:El; [|done].
    injection Htbl as ->. split; [|eauto].
    apply rows_match_headers_width. by eapply Hok. }
  apply dict_get_Some in Eop, Etid.
  destruct (is_op op_type SET_CELL) eqn:E1.
  { destruct tbl as [table|]; [|unchanged].
    destruct (Hw table eq_refl) as (Hwd & tr & Hl & Hh).
    apply apply_set_cell_step; [done|].
    intros col Hcol. rewrite Hh. eapply Hguard; eauto.
    apply String.eqb_eq in E1. by rewrite Eop, E1. }
  destruct (is_op op_type ADD_ROW).
  { destruct tbl as [table|]; [|unchanged].
    apply apply_add_row_step, Hw; done. }
  destruct (is_op op_type DELETE_ROW).
  { destruct tbl as [table|]; [|unchanged].
    apply apply_delete_row_step, Hw; done. }
  destruct (is_op op_type ADD_COLUMN).
  { destruct tbl as [table|]; [|unchanged].
    apply apply_add_column_step, Hw; done. }
  destruct (is_op op_type DELETE_COLUMN).
  { destruct tbl as [table|]; [|unchanged].
    apply apply_delete_column_step, Hw; done. }
  destruct (is_op op_type SET_HEADER).
  { destruct tbl as [table|]; [|unchanged].
    apply apply_set_header_step, Hw; done. }
  destruct (is_op op_type RENAME_TABLE).
  { destruct tbl as [table|]; [|unchanged].
    apply apply_rename_table_step, Hw; done. }
  destruct (is_op op_type DELETE_TABLE).
  { apply delete_table_step. }
  unchanged.
Qed.

(** C3, as amended.  On a store whose rows all have as many cells as their
    table has headers, a successfully applied operation leaves every row of
    every table with as many cells as headers, unless it is a [setCell] whose
    [col] is not below the number of headers of its table. *)
Theorem apply_keeps_row_width op c db :
  tables_ok db -> set_cell_within_headers op db -> row_width_kept op c db.
Proof.
  intros Hok Hguard db' Happ.
  eapply tables_step_ok; [exact Hok|].
  by eapply apply_operation_step.
Qed.

Lemma apply_keeps_row_width_witness :
  row_width_kept (add_row_op "T" "R2") "alice" (sample_db [PStr "A"] [fresh_row] []).
Proof.
  apply apply_keeps_row_width.
  - intros tid tr Hl. simpl in Hl.
    apply lookup_singleton_Some in Hl as [_ <-]. reflexivity.
  - intros tid col tr Hop. discriminate Hop.
Defined.

(** C3 as stated fails: in a table of two columns, a [setCell] on column 5
    is applied and pads the row to six cells. *)
Lemma row_width_counterexample :
  tables_ok (sample_db [PStr "A"; PStr "B"] [mkRow "R" [PStr ""; PStr ""] []] [])
  /\ ~ row_width_kept (set_cell_op "T" "R" 5 (Val "v") (Val 1%Z)) "alice"
        (sample_db [PStr "A"; PStr "B"] [mkRow "R" [PStr ""; PStr ""] []] []).
Proof.
  split.
  - intros tid tr Hl. simpl in Hl.
    apply lookup_singleton_Some in Hl as [_ <-]. reflexivity.
  - intros H.
    specialize (H (snd (_apply_operation (set_cell_op "T" "R" 5 (Val "v") (Val 1%Z))
                          "alice"
                          (sample_db [PStr "A"; PStr "B"]
                             [mkRow "R" [PStr ""; PStr ""] []] [])))
                  eq_refl "T"
                  (mkTableRow "Sheet" [PStr "A"; PStr "B"]
                     [mkRow "R" [PStr ""; PStr ""; PStr ""; PStr ""; PStr "";
                                 PStr "v"]
                        [None; None; None; None; None;
                         Some (mkCellMeta (PStr "v") (Some 1%Z) "alice")]]
                     1000 2) eq_refl).
    discriminate H.
Qed.

(** ** An operation that is not applied *)

Lemma get_latest_cursor_ok db :
  db_faults db = [] ->
  get_latest_cursor db
  = (Ok (latest_cursor (db_events db)), log_call GetLatestCursor db).
Proof.
  intros H. unfold get_latest_cursor, bind. by rewrite storage_call_ok.
Qed.

Lemma get_events_since_ok cursor limit db :
  db_faults db = [] ->
  get_events_since cursor limit db
  = (Ok (events_since cursor limit (db_events db)),
     log_call (GetEventsSince cursor) db).
Proof.
  intros H. unfold get_events_since, bind. by rewrite storage_call_ok.
Qed.

Lemma process_ops_rejected h c op rest conflicts applied db db1 :
  _apply_operation op c db = (Ok false, db1) ->
  process_ops h c (op :: rest) conflicts applied db
  = process_ops h c rest (conflicts ++ [mkConflict op "Failed to apply"])
                applied db1.
Proof. intros H. simpl. unfold bind at 1. by rewrite H. Qed.


(** ** Storage faults *)



















(** ** C6: [deleteTable] *)

Lemma delete_table_ok tid db :
  db_faults db = [] ->
  delete_table tid db
  = (Ok (match db_tables db !! tid with Some _ => true | None => false end),
     mkDb (delete tid (db_tables db)) (db_events db) (db_clock db) []
          (db_calls db ++ [DeleteTable tid])).
Proof.
  intros Hf. unfold delete_table, bind. rewrite storage_call_ok by done.
  unfold get_db, log_call. simpl. rewrite Hf.
  destruct (db_tables db !! tid) as [tr|] eqn:E; simpl; [done|].
  by rewrite delete_id.
Qed.

(** C6, as amended.  Applying a [deleteTable] operation, met by no storage
    fault, first reads the table with [get_table], as for every other
    operation, drops what it read, and then passes the table id to the
    store's [delete_table]; it returns whether a table was deleted. *)
Theorem delete_table_reads_first op c db tid :
  o_op op = Val "deleteTable" -> o_tableId op = Val tid -> tid <> "" ->
  db_faults db = [] ->
  _apply_operation op c db
  = (Ok (match db_tables db !! tid with Some _ => true | None => false end),
     mkDb (delete tid (db_tables db)) (db_events db) (db_clock db) []
          (db_calls db ++ [GetTable tid; DeleteTable tid])).
Proof.
  intros Hop Htid Hne Hf. unfold _apply_operation, try_except.
  rewrite Hop, Htid. simpl.
  apply String.eqb_neq in Hne. rewrite Hne. simpl.
  unfold bind at 1. rewrite get_table_ok by done.
  unfold _apply_delete_table. rewrite delete_table_ok by done.
  simpl. by rewrite <- app_assoc.
Qed.

Lemma delete_table_reads_first_witness :
  _apply_operation (delete_table_op "T") "alice" (sample_db [PStr "A"] [fresh_row] [])
  = (Ok true, mkDb (delete "T" (db_tables (sample_db [PStr "A"] [fresh_row] [])))
                   [] 1000 [] ([] ++ [GetTable "T"; DeleteTable "T"])).
Proof.
  apply (delete_table_reads_first (delete_table_op "T") "alice"
           (sample_db [PStr "A"] [fresh_row] []) "T").
  - reflexivity.
  - reflexivity.
  - discriminate.
  - reflexivity.
Defined.

(** The skeleton engine reads the table as well, and then has no branch
    for [deleteTable]: nothing is deleted. *)
Lemma placeholder_delete_table_unhandled op c db tid :
  o_op op = Val "deleteTable" -> o_tableId op = Val tid -> tid <> "" ->
  db_faults db = [] ->
  Placeholder._apply_operation op c db = (Ok false, log_call (GetTable tid) db).
Proof.
  intros Hop Htid Hne Hf. unfold Placeholder._apply_operation.
  rewrite Hop, Htid. simpl.
  apply String.eqb_neq in Hne. rewrite Hne. simpl.
  unfold bind at 1. by rewrite get_table_ok.
Qed.

(** C6 as stated fails: the calls made for a [deleteTable] start with the
    read of the table. *)
Lemma delete_table_read_counterexample :
  ~ no_read_before_delete (delete_table_op "T") "alice"
      (sample_db [PStr "A"] [fresh_row] [])
  /\ db_calls (snd (_apply_operation (delete_table_op "T") "alice"
                      (sample_db [PStr "A"] [fresh_row] [])))
     = [GetTable "T"; DeleteTable "T"].
Proof.
  split; [|reflexivity]. intros H. apply (H "T"). by left.
Qed.

(** ** The deltas of the other clients *)

Lemma other_client_deltas_filter c events :
  other_client_deltas c events
  = omap _event_to_delta (from_other_clients c events).
Proof.
  induction events as [|e rest IH]; simpl; [done|].
  destruct (String.eqb (e_clientId e) c); simpl; [done|].
  destruct (_event_to_delta e); by rewrite IH.
Qed.

Lemma event_to_delta_by e d : _event_to_delta e = Some d -> d_by d = e_clientId e.
Proof.
  unfold _event_to_delta. destruct (operation_is_empty _); [done|].
  by intros [= <-].
Qed.




(** ** C8: the limit of a pull *)

Lemma find_app_list {A} (f : A -> bool) l1 l2 :
  List.find f (l1 ++ l2)
  = match List.find f l1 with Some x => Some x | None => List.find f l2 end.
Proof. induction l1 as [|a l1 IH]; simpl; [done|]. by destruct (f a). Qed.

Lemma find_none_fresh (evs : list SyncEvent) cursor :
  ~ In cursor (map e_cursor evs) ->
  List.find (fun e => String.eqb (e_cursor e) cursor) evs = None.
Proof.
  induction evs as [|e evs IH]; simpl; [done|]. intros Hn.
  destruct (String.eqb_spec (e_cursor e) cursor) as [Heq|_].
  - destruct Hn. by left.
  - apply IH. intros Hin. apply Hn. by right.
Qed.

Lemma sorted_snoc_below (l : list Z) a :
  StronglySorted Z.lt (l ++ [a]) -> Forall (fun x => (x < a)%Z) l.
Proof.
  induction l as [|x l IH]; simpl; [constructor|].
  intros Hs. inversion Hs as [|? ? Hs' Hall]; subst.
  constructor; [|by apply IH].
  apply Forall_app in Hall as [_ Ha]. by inversion Ha.
Qed.

Lemma filter_none {A} (f : A -> bool) l :
  Forall (fun x => f x = false) l -> List.filter f l = [].
Proof. induction 1 as [|x l Hx _ IH]; simpl; [done|]. by rewrite Hx. Qed.

(** Nothing lies after the latest cursor. *)
Lemma events_since_latest limit evs :
  log_wf evs -> events_since (latest_cursor evs) limit evs = [].
Proof.
  intros (Hsorted & Hnodup & Hzero). unfold latest_cursor, events_since.
  destruct (last evs) as [e|] eqn:El.
  - apply last_Some in El as [init ->].
    assert (Hne : e_cursor e <> "0").
    { apply Forall_app in Hzero as [_ Hz]. by inversion Hz. }
    apply String.eqb_neq in Hne. rewrite Hne.
    unfold cursor_id. rewrite find_app_list.
    rewrite map_app in Hnodup. apply NoDup_app in Hnodup as (_ & Hdisj & _).
    rewrite find_none_fresh.
    2: { intros Hin. apply (Hdisj (e_cursor e)).
         - by apply list_elem_of_In.
         - simpl. by left. }
    simpl. rewrite String.eqb_refl. simpl.
    rewrite filter_none; [by destruct limit|].
    rewrite map_app in Hsorted. apply sorted_snoc_below in Hsorted.
    apply Forall_app. split.
    + rewrite Forall_map in Hsorted. eapply Forall_impl; [exact Hsorted|].
      intros x Hx. simpl in Hx. apply Z.ltb_ge. lia.
    + repeat constructor. apply Z.ltb_irrefl.
  - apply last_None in El as ->. simpl. by destruct limit.
Qed.

Lemma events_since_take cursor limit evs :
  events_since cursor limit evs = take limit (events_after cursor evs).
Proof.
  unfold events_after, events_since.
  destruct (String.eqb cursor "0").
  - by rewrite firstn_all.
  - destruct (cursor_id cursor evs) as [i|]; [|by destruct limit].
    rewrite (take_ge (List.filter _ _) (length evs)); [done|].
    apply filter_length_le.
Qed.

Lemma length_events_since cursor limit evs :
  length (events_since cursor limit evs) <= limit.
Proof. rewrite events_since_take, length_take. lia. Qed.

Lemma length_omap_le {A B} (f : A -> option B) l :
  length (omap f l) <= length l.
Proof.
  induction l as [|a l IH]; csimpl; [done|]. destruct (f a); csimpl; lia.
Qed.

Lemma get_all_tables_ok db :
  db_faults db = [] ->
  exists tables, get_all_tables db = (Ok tables, log_call GetAllTables db).
Proof.
  intros H. unfold get_all_tables, bind. rewrite storage_call_ok by done.
  unfold get_db, ret. eauto.
Qed.

Lemma get_changes_since_ok cursor db :
  db_faults db = [] ->
  exists tables db',
    get_changes_since cursor db
    = (Ok (mkChanges (latest_cursor (db_events db))
             (omap _event_to_delta
                (events_since cursor default_limit (db_events db))) tables), db')
    /\ db_events db' = db_events db /\ db_faults db' = [].
Proof.
  intros Hf. unfold get_changes_since. unfold bind at 1.
  rewrite get_events_since_ok by done.
  unfold bind at 1. rewrite get_latest_cursor_ok by done.
  unfold bind at 1. destruct (String.eqb cursor "0").
  - destruct (get_all_tables_ok
                (log_call GetLatestCursor (log_call (GetEventsSince cursor) db)))
      as [tables ->]; [done|].
    unfold ret. eexists _, _. split; [done|]. done.
  - unfold ret. eexists _, _. split; [done|]. done.
Qed.

(** C8.  On a store met by no fault, whose log has increasing ids and
    unique cursors, every pull returns at most 100 deltas together with the
    cursor of the latest event of the whole log.  When more than 100 events lie
    after the requested cursor, the deltas are those of the first 100 only,
    and pulling again from the returned cursor returns no delta: the events
    past the hundredth are skipped. *)
Theorem pull_limit_skips_events cursor db :
  db_faults db = [] -> log_wf (db_events db) ->
  exists r db',
    get_changes_since cursor db = (Ok r, db')
    /\ length (cr_deltas r) <= default_limit
    /\ cr_cursor r = latest_cursor (db_events db)
    /\ db_events db' = db_events db
    /\ (default_limit < length (events_after cursor (db_events db)) ->
        cr_deltas r
        = omap _event_to_delta
            (take default_limit (events_after cursor (db_events db)))
        /\ drop default_limit (events_after cursor (db_events db)) <> []
        /\ exists r2 db2,
             get_changes_since (cr_cursor r) db' = (Ok r2, db2)
             /\ cr_deltas r2 = [] /\ cr_cursor r2 = cr_cursor r).
Proof.
  intros Hf Hwf.
  destruct (get_changes_since_ok cursor db Hf) as (tables & db' & Hg & He & Hf').
  eexists _, db'. split; [exact Hg|]. simpl.
  split; [|split; [done|split; [done|]]].
  - etrans; [apply length_omap_le|]. apply length_events_since.
  - intros Hmore. split; [by rewrite events_since_take|]. split.
    + intros Hd. apply (f_equal length) in Hd. rewrite length_drop in Hd.
      simpl in Hd. lia.
    + destruct (get_changes_since_ok (latest_cursor (db_events db)) db' Hf')
        as (tables2 & db2 & Hg2 & _ & _).
      eexists _, db2. split; [exact Hg2|]. simpl.
      rewrite He. by rewrite events_since_latest.
Qed.

Lemma pull_limit_skips_events_witness :
  exists r db',
    get_changes_since "0" (db_with_events 101) = (Ok r, db')
    /\ length (cr_deltas r) <= default_limit
    /\ cr_cursor r = latest_cursor (db_events (db_with_events 101))
    /\ db_events db' = db_events (db_with_events 101)
    /\ (default_limit < length (events_after "0" (db_events (db_with_events 101))) ->
        cr_deltas r
        = omap _event_to_delta
            (take default_limit (events_after "0" (db_events (db_with_events 101))))
        /\ drop default_limit (events_after "0" (db_events (db_with_events 101))) <> []
        /\ exists r2 db2,
             get_changes_since (cr_cursor r) db' = (Ok r2, db2)
             /\ cr_deltas r2 = [] /\ cr_cursor r2 = cr_cursor r).
Proof.
  apply (pull_limit_skips_events "0" (db_with_events 101)).
  - reflexivity.
  - apply (bool_decide_unpack _). vm_compute. reflexivity.
Defined.

(** With 101 events in the log, the pull from ["0"] returns 100 deltas and
    the cursor of event 101; event 101 is never delivered. *)
Example pull_101_events :
  default_limit < length (events_after "0" (db_events (db_with_events 101)))
  /\ match get_changes_since "0" (db_with_events 101) with
     | (Ok r, db') =>
         length (cr_deltas r) = 100 /\ cr_cursor r = "101_00000000000000aa"
         /\ match get_changes_since (cr_cursor r) db' with
            | (Ok r2, _) => cr_deltas r2 = []
            | _ => False
            end
     | _ => False
     end.
Proof. vm_compute. split; [lia|done]. Qed.

(** The store keeps its log well formed. *)

Lemma sorted_snoc (l : list Z) a :
  StronglySorted Z.lt l -> Forall (fun x => (x < a)%Z) l ->
  StronglySorted Z.lt (l ++ [a]).
Proof.
  induction 1 as [|x l Hs IH Hx]; simpl; intros Ha.
  - repeat constructor.
  - inversion Ha; subst. constructor; [by apply IH|].
    apply Forall_app. split; [done|]. by repeat constructor.
Qed.

Lemma next_event_id_above evs :
  StronglySorted Z.lt (map e_id evs) ->
  Forall (fun x => (x < next_event_id evs)%Z) (map e_id evs).
Proof.
  intros Hs. unfold next_event_id.
  destruct (last evs) as [e|] eqn:El.
  - apply last_Some in El as [init ->]. rewrite map_app in *. simpl in *.
    apply sorted_snoc_below in Hs. apply Forall_app. split.
    + eapply Forall_impl; [exact Hs|]. simpl. lia.
    + repeat constructor. lia.
  - apply last_None in El as ->. constructor.
Qed.

Lemma existsb_cursor_false cursor evs :
  existsb (fun e => String.eqb (e_cursor e) cursor) evs = false ->
  ~ In cursor (map e_cursor evs).
Proof.
  induction evs as [|e evs IH]; simpl; [tauto|].
  intros [He Hr]%orb_false_elim [Heq|Hin]; [|by apply IH].
  apply String.eqb_neq in He. done.
Qed.

(** Appending an event keeps the log well formed. *)
Lemma add_sync_event_wf cursor c op db i db' :
  log_wf (db_events db) -> cursor <> "0" ->
  add_sync_event cursor c op db = (Ok i, db') ->
  log_wf (db_events db').
Proof.
  intros (Hs & Hn & Hz) Hc. unfold add_sync_event, bind.
  destruct (storage_call _ db) as [[[]|e] db1] eqn:E;
    apply storage_call_tables in E as [_ He]; [|done].
  unfold utcnow, get_db. simpl. rewrite He.
  destruct (existsb _ _) eqn:Ex; [done|].
  unfold set_events, ret. simpl. intros [= <- <-]. simpl.
  apply existsb_cursor_false in Ex.
  split; [|split].
  - rewrite map_app. simpl. apply sorted_snoc; [done|].
    by apply next_event_id_above.
  - rewrite map_app. simpl. apply NoDup_app. split; [done|]. split.
    + intros x Hx [->|[]]%list_elem_of_In. by apply Ex, list_elem_of_In.
    + apply NoDup_singleton.
  - apply Forall_app. split; [done|]. by repeat constructor.
Qed.

(** A generated cursor is never the sentinel ["0"]. *)
Lemma generate_cursor_not_zero h c op db cursor db' :
  _generate_cursor h c op db = (Ok cursor, db') -> cursor <> "0".
Proof.
  unfold _generate_cursor, bind, utcnow, ret. intros [= <- <-].
  destruct (str_of_int _) as [|a s]; simpl; [done|].
  intros [= _ Hs]. by destruct s.
Qed.

(** ** C9: an empty row id *)

Lemma apply_row_op_without_id op c db :
  o_op op = Val "addRow" \/ o_op op = Val "deleteRow" ->
  truthy (dict_get (o_rowId op)) = false ->
  exists db',
    _apply_operation op c db = (Ok false, db')
    /\ db_tables db' = db_tables db /\ db_events db' = db_events db
    /\ db' = snd (_apply_operation (with_rowId op Missing) c db).
Proof.
  intros Hop Hrid. unfold _apply_operation, try_except. simpl.
  destruct (dict_get (o_tableId op)) as [tid|]; simpl.
  2: { destruct Hop as [-> | ->]; simpl; eauto 10. }
  destruct (String.eqb tid ""); simpl.
  { destruct Hop as [-> | ->]; simpl; eauto 10. }
  destruct Hop as [-> | ->]; simpl; unfold bind;
    destruct (get_table tid db) as [[[table|]|e] db1] eqn:Eg;
    apply get_table_inv in Eg as (Ht & He & _); simpl;
    unfold _apply_add_row, _apply_delete_row; rewrite ?Hrid; simpl;
    unfold ret; eauto 10.
Qed.

(** C9.  An [addRow] or [deleteRow] whose [rowId] is the empty string does
    what the same operation without [rowId] does: it is not applied, tables
    and events stay as they are, and the push records it as a conflict. *)
Theorem empty_row_id_is_missing h op c db conflicts applied :
  o_op op = Val "addRow" \/ o_op op = Val "deleteRow" ->
  o_rowId op = Val "" ->
  exists db',
    _apply_operation op c db = (Ok false, db')
    /\ _apply_operation (with_rowId op Missing) c db = (Ok false, db')
    /\ db_tables db' = db_tables db /\ db_events db' = db_events db
    /\ process_ops h c [op] conflicts applied db
       = (Ok (conflicts ++ [mkConflict op "Failed to apply"], applied), db').
Proof.
  intros Hop Hrid.
  destruct (apply_row_op_without_id op c db Hop) as (db' & Ha & Ht & He & Hs).
  { by rewrite Hrid. }
  destruct (apply_row_op_without_id (with_rowId op Missing) c db)
    as (db2 & Ha2 & _ & _ & _); [done|done|].
  exists db'. split; [done|]. split.
  - rewrite Ha2. f_equal. rewrite Hs. by rewrite Ha2.
  - split; [done|]. split; [done|].
    erewrite process_ops_rejected by done. done.
Qed.

Lemma empty_row_id_is_missing_witness :
  exists db',
    _apply_operation (add_row_op "T" "") "alice" (sample_db [PStr "A"] [fresh_row] [])
    = (Ok false, db')
    /\ _apply_operation (with_rowId (add_row_op "T" "") Missing) "alice"
         (sample_db [PStr "A"] [fresh_row] []) = (Ok false, db')
    /\ db_tables db' = db_tables (sample_db [PStr "A"] [fresh_row] [])
    /\ db_events db' = db_events (sample_db [PStr "A"] [fresh_row] [])
    /\ process_ops sample_hash "alice" [add_row_op "T" ""] [] []
         (sample_db [PStr "A"] [fresh_row] [])
       = (Ok ([] ++ [mkConflict (add_row_op "T" "") "Failed to apply"], []), db').
Proof.
  apply (empty_row_id_is_missing sample_hash (add_row_op "T" "") "alice"
           (sample_db [PStr "A"] [fresh_row] []) [] []).
  - left. reflexivity.
  - reflexivity.
Defined.

(** ** C10: a [setCell] without a value *)

Lemma apply_operation_missing_value op c :
  o_value op = Missing ->
  _apply_operation op c = _apply_operation (with_value op (Val "")) c.
Proof.
  intros Hv. destruct op; simpl in Hv; subst. reflexivity.
Qed.

(** C10.  A [setCell] without a [value] key behaves as the same operation
    with the value [""]: it is not rejected for the missing field, the LWW
    rule decides, and when it is applied [cells[col]] and the value of the new
    metadata are the empty string. *)
Theorem set_cell_without_value op c db tid tr pre row post (col : nat) :
  is_set_cell op tid (r_rowId row) (Z.of_nat col) ->
  o_value op = Missing ->
  db_faults db = [] -> db_tables db !! tid = Some tr ->
  sole_row tr pre row post ->
  let ts := dict_get (o_ts op) in
  let applies := meta_unset (stored_meta row col) || beats ts c (stored_meta row col) in
  _apply_operation op c db = _apply_operation (with_value op (Val "")) c db
  /\ exists db',
       _apply_operation op c db = (Ok applies, db')
       /\ (applies = true ->
           exists tr',
             db_tables db' !! tid = Some tr'
             /\ tr_rows tr' = pre ++ written_row row col (PStr "") ts c :: post
             /\ cell_value db' tid (r_rowId row) col = Some (PStr "")
             /\ stored_meta (written_row row col (PStr "") ts c) col
                = Some (mkCellMeta (PStr "") ts c)).
Proof.
  intros Hop Hv Hf Ht Hsole ts applies. split.
  - by rewrite apply_operation_missing_value.
  - rewrite (set_cell_nat_outcome op c db tid tr pre row post col) by done.
    rewrite Hv. simpl dict_get_str. fold ts applies.
    eexists. split; [done|]. intros ->.
    eexists. rewrite updated_db_lookup. split; [done|]. simpl.
    split; [done|]. split; [|apply written_row_meta].
    unfold cell_value. rewrite updated_db_lookup. simpl.
    destruct Hsole as (_ & Hpre & _).
    change (r_rowId row) with (r_rowId (written_row row col (PStr "") ts c)) at 1.
    rewrite find_sole_row by done. simpl.
    exact (written_row_cell row col (PStr "") ts c).
Qed.

Lemma set_cell_without_value_witness :
  _apply_operation (set_cell_op "T" "R" 0 Missing (Val 300%Z)) "alice" db_bob_200
  = _apply_operation (with_value (set_cell_op "T" "R" 0 Missing (Val 300%Z)) (Val ""))
      "alice" db_bob_200
  /\ exists db',
       _apply_operation (set_cell_op "T" "R" 0 Missing (Val 300%Z)) "alice" db_bob_200
       = (Ok true, db')
       /\ (true = true ->
           exists tr',
             db_tables db' !! "T" = Some tr'
             /\ tr_rows tr'
                = [] ++ written_row (row_written_by_bob 200) 0 (PStr "")
                          (Some 300%Z) "alice" :: []
             /\ cell_value db' "T" "R" 0 = Some (PStr "")
             /\ stored_meta (written_row (row_written_by_bob 200) 0 (PStr "")
                               (Some 300%Z) "alice") 0
                = Some (mkCellMeta (PStr "") (Some 300%Z) "alice")).
Proof.
  apply (set_cell_without_value (set_cell_op "T" "R" 0 Missing (Val 300%Z)) "alice"
           db_bob_200 "T"
           (mkTableRow "Sheet" [PStr "A"] [row_written_by_bob 200] 0 1)
           [] (row_written_by_bob 200) [] 0).
  - repeat split; done.
  - reflexivity.
  - reflexivity.
  - reflexivity.
  - repeat split; constructor.
Defined.

(** * Further properties *)

(** ** What one operation may do to the store *)

Lemma table_write_none tid rows r db : table_write tid rows r db db.
Proof. split; [done|by left]. Qed.

Lemma update_table_write tid t rows db r db' :
  update_table tid t db = (r, db') ->
  (NoDup (map r_rowId rows) -> NoDup (map r_rowId (t_rows t))) ->
  table_write tid rows r db db'.
Proof.
  unfold update_table, bind. destruct (storage_call _ db) as [[[]|e] db1] eqn:E;
    apply storage_call_tables in E as [Ht He].
  - unfold utcnow, get_db. simpl. rewrite Ht.
    destruct (db_tables db !! tid) as [old|] eqn:El; simpl;
      intros [= <- <-] Hn; simpl; (split; [done|]).
    + right. eexists old, _. repeat split; done.
    + by left.
  - intros [= <- <-] _. split; [done|by left].
Qed.

Lemma set_cell_rows_write table rows : forall seen rid col v ts c db r db',
  set_cell_rows table seen rows rid col v ts c db = (r, db') ->
  table_write (t_id table) (seen ++ rows) r db db'.
Proof.
  induction rows as [|row rest IH]; intros seen rid col v ts c db r db'; simpl.
  - intros [= <- <-]. apply table_write_none.
  - destruct (String.eqb (r_rowId row) rid).
    + unfold bind, lift.
      destruct (py_getitem _ col) as [cur|e];
        [|intros [= <- <-]; apply table_write_none].
      destruct (_should_apply_change cur ts c) as [[|]|e];
        [| |intros [= <- <-]; apply table_write_none].
      * destruct (py_setitem _ col v) as [cells'|e];
          [|intros [= <- <-]; apply table_write_none].
        destruct (py_setitem _ col (Some _)) as [meta'|e];
          [|intros [= <- <-]; apply table_write_none].
        intros Hu. eapply update_table_write; [exact Hu|]. simpl.
        by rewrite !map_app.
      * intros Hs. apply IH in Hs. rewrite <- app_assoc in Hs.
        destruct Hs as [He Hs]. split; [done|].
        destruct Hs as [Hs|(old & tr' & ? & ? & ? & ? & Hn)]; [by left|].
        right. exists old, tr'. repeat split; try done.
        intros Hd. apply Hn. revert Hd. by rewrite !map_app.
    + intros Hs. apply IH in Hs. by rewrite <- app_assoc in Hs.
Qed.

Lemma insert_after_perm after new_row rows :
  insert_after after new_row rows ≡ₚ new_row :: rows.
Proof.
  induction rows as [|r rows IH]; simpl; [done|].
  destruct (String.eqb (r_rowId r) after).
  - apply perm_swap.
  - rewrite IH. apply perm_swap.
Qed.

Lemma existsb_row_id_false rid rows :
  existsb (fun r => String.eqb (r_rowId r) rid) rows = false ->
  ~ In rid (map r_rowId rows).
Proof.
  induction rows as [|r rows IH]; simpl; [tauto|].
  intros [He Hr]%orb_false_elim [Heq|Hin]; [|by apply IH].
  apply String.eqb_neq in He. done.
Qed.

Lemma filter_row_ids_nodup (f : Row -> bool) rows :
  NoDup (map r_rowId rows) -> NoDup (map r_rowId (List.filter f rows)).
Proof.
  induction rows as [|r rows IH]; simpl; [done|].
  intros [Hn Hd]%NoDup_cons. destruct (f r); simpl; [|by apply IH].
  apply NoDup_cons. split; [|by apply IH].
  intros Hin. apply Hn. apply list_elem_of_In in Hin. apply list_elem_of_In.
  apply in_map_iff in Hin as (x & <- & Hx). apply in_map.
  by apply filter_In in Hx as [Hx _].
Qed.

Ltac no_write := intros [= <- <-]; apply table_write_none.

Lemma apply_set_cell_write table op c db r db' :
  _apply_set_cell (Some table) op c db = (r, db') ->
  table_write (t_id table) (t_rows table) r db db'.
Proof.
  unfold _apply_set_cell.
  destruct (dict_get (o_rowId op)); [|no_write].
  destruct (dict_get (o_col op)); [|no_write].
  apply set_cell_rows_write.
Qed.

Lemma apply_add_row_write table op c db r db' :
  _apply_add_row (Some table) op c db = (r, db') ->
  table_write (t_id table) (t_rows table) r db db'.
Proof.
  unfold _apply_add_row.
  destruct (negb (truthy _)); [no_write|].
  destruct (existsb _ _) eqn:Ex; [no_write|].
  intros Hu. eapply update_table_write; [exact Hu|]. simpl. intros Hd.
  apply existsb_row_id_false in Ex.
  assert (Hn : NoDup (map r_rowId
            (mkRow (default "" (dict_get (o_rowId op)))
                   (replicate (length (t_headers table)) (PStr "")) []
             :: t_rows table))).
  { simpl. apply NoDup_cons. split; [|done]. by rewrite list_elem_of_In. }
  destruct (truthy (dict_get (o_afterRowId op))).
  - by rewrite insert_after_perm.
  - rewrite map_app. simpl. rewrite Permutation_app_comm. exact Hn.
Qed.

Lemma apply_delete_row_write table op c db r db' :
  _apply_delete_row (Some table) op c db = (r, db') ->
  table_write (t_id table) (t_rows table) r db db'.
Proof.
  unfold _apply_delete_row. destruct (negb (truthy _)); [no_write|].
  intros Hu. eapply update_table_write; [exact Hu|]. simpl.
  apply filter_row_ids_nodup.
Qed.

Lemma apply_add_column_write table op c db r db' :
  _apply_add_column (Some table) op c db = (r, db') ->
  table_write (t_id table) (t_rows table) r db db'.
Proof.
  unfold _apply_add_column. destruct (dict_get_int _ _); [|no_write].
  intros Hu. eapply update_table_write; [exact Hu|]. simpl.
  by rewrite map_map.
Qed.

Lemma apply_delete_column_write table op c db r db' :
  _apply_delete_column (Some table) op c db = (r, db') ->
  table_write (t_id table) (t_rows table) r db db'.
Proof.
  unfold _apply_delete_column. destruct (dict_get _); [|no_write].
  destruct (_ || _); [no_write|].
  intros Hu. eapply update_table_write; [exact Hu|]. simpl.
  by rewrite map_map.
Qed.

Lemma apply_set_header_write table op c db r db' :
  _apply_set_header (Some table) op c db = (r, db') ->
  table_write (t_id table) (t_rows table) r db db'.
Proof.
  unfold _apply_set_header. destruct (dict_get _); [|no_write].
  destruct (_ && _); [|no_write].
  intros Hu. by eapply update_table_write.
Qed.

Lemma apply_rename_table_write table op c db r db' :
  _apply_rename_table (Some table) op c db = (r, db') ->
  table_write (t_id table) (t_rows table) r db db'.
Proof.
  unfold _apply_rename_table. destruct (negb (truthy _)); [no_write|].
  intros Hu. by eapply update_table_write.
Qed.

Lemma delete_table_effect tid db r db' :
  delete_table tid db = (r, db') ->
  db_events db' = db_events db
  /\ (db_tables db' = db_tables db
      \/ exists old, db_tables db !! tid = Some old /\ r = Ok true
                     /\ db_tables db' = delete tid (db_tables db)).
Proof.
  unfold delete_table, bind. destruct (storage_call _ db) as [[[]|e] db1] eqn:E;
    apply storage_call_tables in E as [Ht He].
  - unfold get_db. rewrite Ht.
    destruct (db_tables db !! tid) as [old|]; simpl; intros [= <- <-]; simpl;
      (split; [done|]); [|by left].
    right. by exists old.
  - intros [= <- <-]. split; [done|by left].
Qed.

Lemma table_write_effect op tid old r db0 db db' :
  dict_get (o_tableId op) = Some tid ->
  db_tables db = db_tables db0 -> db_events db = db_events db0 ->
  (forall o, db_tables db0 !! tid = Some o -> o = old) ->
  table_write tid (tr_rows old) r db db' ->
  apply_effect op r db0 db'.
Proof.
  intros Htid Ht He Hold [He' Hw]. split; [congruence|].
  destruct Hw as [Hw|(o & tr' & Hl & Hr & Hi & Hv & Hn)]; [left; congruence|].
  rewrite Ht in Hl, Hi. right. exists tid, o. repeat split; try done.
  right. exists tr'. repeat split; try done.
  rewrite (Hold o Hl) in *. done.
Qed.

(** Applying one operation: what may happen to the store. *)
Lemma apply_operation_effect op c db r db' :
  _apply_operation op c db = (r, db') -> apply_effect op r db db'.
Proof.
  unfold _apply_operation, try_except.
  match goal with |- context [let (_, _) := ?m db in _] =>
    destruct (m db) as [r0 db0] eqn:E end.
  intros Hr.
  assert (Hunch : apply_effect op r db db).
  { split; [done|by left]. }
  assert (db0 = db' /\ (r0 = Ok true -> r = Ok true)) as [-> Hrr].
  { destruct r0; unfold ret in Hr; split; congruence. }
  clear Hr. revert E.
  destruct (dict_get (o_op op)) as [op_type|] eqn:Eop; simpl;
    [|intros [= _ <-]; done].
  destruct (dict_get (o_tableId op)) as [tid|] eqn:Etid; simpl;
    [|rewrite orb_true_r; intros [= _ <-]; done].
  destruct (negb (negb (op_type =? "")) || negb (negb (tid =? "")))%bool;
    [intros [= _ <-]; done|].
  unfold bind at 1.
  destruct (get_table tid db) as [[tbl|e] db1] eqn:Eg;
    apply get_table_inv in Eg as (Ht & He & Htbl).
  2: { intros [= _ <-]. split; [done|by left]. }
  specialize (Htbl _ eq_refl).
  assert (Hw : forall table, tbl = Some table ->
            table_write (t_id table) (t_rows table) r0 db1 db' ->
            apply_effect op r db db').
  { intros table -> Hw.
    destruct (db_tables db !! tid) as [old|] eqn:El; [|done].
    injection Htbl as ->. simpl in Hw.
    assert (He0 : apply_effect op r0 db db').
    { eapply (table_write_effect op tid old r0 db db1 db');
        [done|done|done|intros o Ho; congruence|exact Hw]. }
    destruct He0 as [He0 Hc]. split; [done|].
    destruct Hc as [Hc|(t & o & ? & ? & Hr0 & Hc)]; [by left|].
    right. exists t, o. repeat split; try done. by apply Hrr. }
  assert (Hnone : forall b : bool, (Ok b, db1) = (r0, db') -> apply_effect op r db db').
  { intros b [= <- <-]. split; [done|left; done]. }
  destruct (is_op op_type SET_CELL).
  { destruct tbl as [table|]; [|apply Hnone].
    intros E. eapply Hw; [done|]. by apply apply_set_cell_write in E. }
  destruct (is_op op_type ADD_ROW).
  { destruct tbl as [table|]; [|apply Hnone].
    intros E. eapply Hw; [done|]. by apply apply_add_row_write in E. }
  destruct (is_op op_type DELETE_ROW).
  { destruct tbl as [table|]; [|apply Hnone].
    intros E. eapply Hw; [done|]. by apply apply_delete_row_write in E. }
  destruct (is_op op_type ADD_COLUMN).
  { destruct tbl as [table|]; [|apply Hnone].
    intros E. eapply Hw; [done|]. by apply apply_add_column_write in E. }
  destruct (is_op op_type DELETE_COLUMN).
  { destruct tbl as [table|]; [|apply Hnone].
    intros E. eapply Hw; [done|]. by apply apply_delete_column_write in E. }
  destruct (is_op op_type SET_HEADER).
  { destruct tbl as [table|]; [|apply Hnone].
    intros E. eapply Hw; [done|]. by apply apply_set_header_write in E. }
  destruct (is_op op_type RENAME_TABLE).
  { destruct tbl as [table|]; [|apply Hnone].
    intros E. eapply Hw; [done|]. by apply apply_rename_table_write in E. }
  destruct (is_op op_type DELETE_TABLE); [|apply Hnone].
  intros E. apply delete_table_effect in E as [He' Hc].
  split; [congruence|].
  destruct Hc as [Hc|(old & Hl & Hr0 & Hd)]; [left; congruence|].
  right. exists tid, old. rewrite Ht in Hl, Hd. repeat split; try done.
  - by apply Hrr.
  - by left.
Qed.



(** X2.  Applying an operation never changes a table other than the one its
    [tableId] names, and never touches the event log, whatever the outcome. *)
Theorem operation_touches_only_its_table op c db r db' tid' :
  dict_get (o_tableId op) <> Some tid' ->
  _apply_operation op c db = (r, db') ->
  db_tables db' !! tid' = db_tables db !! tid'
  /\ db_events db' = db_events db.
Proof.
  intros Hne H. apply apply_operation_effect in H as [He Hc]. split; [|done].
  destruct Hc as [->|(tid & old & Htid & _ & _ & [->|(tr' & -> & _)])]; [done| |].
  - apply lookup_delete_ne. congruence.
  - apply lookup_insert_ne. congruence.
Qed.

Lemma operation_touches_only_its_table_witness :
  db_tables (snd (_apply_operation (delete_table_op "T") "alice" two_table_db)) !! "U"
  = db_tables two_table_db !! "U"
  /\ db_events (snd (_apply_operation (delete_table_op "T") "alice" two_table_db))
     = db_events two_table_db.
Proof.
  apply (operation_touches_only_its_table (delete_table_op "T") "alice" two_table_db
           (fst (_apply_operation (delete_table_op "T") "alice" two_table_db))).
  - simpl. discriminate.
  - apply surjective_pairing.
Defined.



(** X4.  If the rows of every stored table carry distinct ids, they still do
    after any operation, whatever its outcome. *)
Theorem row_ids_stay_unique op c db r db' :
  all_row_ids_unique db ->
  _apply_operation op c db = (r, db') ->
  all_row_ids_unique db'.
Proof.
  intros Hu H tid tr Hl. apply apply_operation_effect in H as [_ Hc].
  destruct Hc as [Hc|(t & old & Htid & Ho & Hr & [Hc|(tr2 & Hc & _ & Hn)])];
    rewrite Hc in Hl.
  - by eapply Hu.
  - apply lookup_delete_Some in Hl as [_ Hl]. by eapply Hu.
  - apply lookup_insert_Some in Hl as [[<- <-]|[_ Hl]].
    + apply Hn. by eapply Hu.
    + by eapply Hu.
Qed.

Lemma row_ids_stay_unique_witness :
  all_row_ids_unique
    (snd (_apply_operation (add_row_op "T" "R2") "alice"
            (sample_db [PStr "A"] [fresh_row] []))).
Proof.
  apply (row_ids_stay_unique (add_row_op "T" "R2") "alice"
           (sample_db [PStr "A"] [fresh_row] [])
           (fst (_apply_operation (add_row_op "T" "R2") "alice"
                   (sample_db [PStr "A"] [fresh_row] [])))).
  - intros tid tr Hl. simpl in Hl.
    apply lookup_singleton_Some in Hl as [_ <-]. apply NoDup_singleton.
  - apply surjective_pairing.
Defined.

(** ** Dispatch on a store that meets no fault *)

Lemma apply_operation_dispatch op c db ty tid :
  is_op_on op ty tid -> db_faults db = [] ->
  _apply_operation op c db
  = try_except
      (applier ty (_parse_table_row tid <$> db_tables db !! tid) tid op c)
      (fun _ => ret false) (log_call (GetTable tid) db).
Proof.
  intros (Hop & Htid & Hne) Hf. unfold _apply_operation, try_except.
  rewrite Hop, Htid. apply String.eqb_neq in Hne.
  destruct ty; simpl; rewrite Hne; simpl; unfold bind at 1;
    rewrite get_table_ok by done; reflexivity.
Qed.

(** ** Rows *)

Lemma in_row_ids_existsb rid rows :
  In rid (map r_rowId rows) ->
  existsb (fun r => String.eqb (r_rowId r) rid) rows = true.
Proof.
  intros (r & <- & Hr)%in_map_iff. apply existsb_exists. exists r.
  split; [done|apply String.eqb_refl].
Qed.

Lemma not_in_row_ids_existsb rid rows :
  ~ In rid (map r_rowId rows) ->
  existsb (fun r => String.eqb (r_rowId r) rid) rows = false.
Proof.
  intros Hn. destruct (existsb _ rows) eqn:E; [|done].
  apply existsb_exists in E as (r & Hr & <-%String.eqb_eq).
  destruct Hn. by apply in_map.
Qed.

(** X5.  With no storage fault, an [addRow] whose non-empty [rowId] is
    already in the table returns [True] after the single read of the table:
    the store is not written and the version stays. *)
Theorem add_row_existing_is_noop op c db tid tr rid :
  is_op_on op ADD_ROW tid -> o_rowId op = Val rid -> rid <> "" ->
  db_faults db = [] -> db_tables db !! tid = Some tr ->
  In rid (map r_rowId (tr_rows tr)) ->
  _apply_operation op c db = (Ok true, log_call (GetTable tid) db).
Proof.
  intros Hop Hrid Hne Hf Ht Hin.
  rewrite (apply_operation_dispatch op c db ADD_ROW tid) by done.
  rewrite Ht. unfold try_except. simpl. rewrite Hrid. simpl.
  apply String.eqb_neq in Hne. rewrite Hne. simpl.
  by rewrite in_row_ids_existsb.
Qed.

Lemma add_row_existing_is_noop_witness :
  _apply_operation (add_row_op "T" "R") "alice" (sample_db [PStr "A"] [fresh_row] [])
  = (Ok true, log_call (GetTable "T") (sample_db [PStr "A"] [fresh_row] [])).
Proof.
  apply (add_row_existing_is_noop (add_row_op "T" "R") "alice"
           (sample_db [PStr "A"] [fresh_row] []) "T"
           (sample_table [PStr "A"] [fresh_row]) "R").
  - repeat split; done.
  - reflexivity.
  - done.
  - reflexivity.
  - vm_compute. reflexivity.
  - simpl. tauto.
Defined.

Lemma insert_after_placed a new rows :
  placed_after a new rows (insert_after a new rows).
Proof.
  induction rows as [|r rows IH]; simpl.
  - right. by split.
  - destruct (String.eqb_spec (r_rowId r) a) as [Heq|Hne].
    + left. exists [], r, rows. by repeat split.
    + destruct IH as [(pre & r0 & post & -> & Hr0 & Hpre & ->)|[Hall ->]].
      * left. exists (r :: pre), r0, post. repeat split; try done.
        by constructor.
      * right. split; [by constructor|done].
Qed.

(** X6.  With no storage fault, an [addRow] with a non-empty [rowId] that
    is not in the table stores the old rows plus one row of that id, with an
    empty cell per header and no metadata: directly after the first row
    whose id is [afterRowId], and at the end when [afterRowId] is missing,
    null, empty or names no row. *)
Theorem add_row_inserts_one_row op c db tid tr rid :
  is_op_on op ADD_ROW tid -> o_rowId op = Val rid -> rid <> "" ->
  db_faults db = [] -> db_tables db !! tid = Some tr ->
  ~ In rid (map r_rowId (tr_rows tr)) ->
  exists rows',
    _apply_operation op c db
    = (Ok true,
       updated_db tid (with_rows (_parse_table_row tid tr) rows') tr
                  (log_call (GetTable tid) db))
    /\ rows' ≡ₚ new_row tr rid :: tr_rows tr
    /\ (truthy (dict_get (o_afterRowId op)) = false ->
        rows' = tr_rows tr ++ [new_row tr rid])
    /\ (forall a, o_afterRowId op = Val a -> a <> "" ->
        placed_after a (new_row tr rid) (tr_rows tr) rows').
Proof.
  intros Hop Hrid Hne Hf Ht Hin.
  rewrite (apply_operation_dispatch op c db ADD_ROW tid) by done.
  rewrite Ht. unfold try_except. simpl. rewrite Hrid. simpl.
  apply String.eqb_neq in Hne. rewrite Hne. simpl.
  rewrite not_in_row_ids_existsb by done.
  erewrite update_table_ok; [|done|simpl; exact Ht]. simpl.
  eexists. split; [reflexivity|]. fold (new_row tr rid).
  destruct (o_afterRowId op) as [| |a] eqn:Ea; simpl.
  - split; [by rewrite Permutation_app_comm|]. split; [done|]. by intros a [=].
  - split; [by rewrite Permutation_app_comm|]. split; [done|]. by intros a [=].
  - destruct (String.eqb_spec a "") as [->|Hna]; simpl.
    + split; [by rewrite Permutation_app_comm|]. split; [done|].
      by intros a [= <-].
    + split; [apply insert_after_perm|]. split; [done|].
      intros a' [= <-] _. apply insert_after_placed.
Qed.

Lemma add_row_inserts_one_row_witness :
  exists rows',
    _apply_operation (add_row_after "T" "R3" "R1") "alice" db_two_rows
    = (Ok true,
       updated_db "T"
         (with_rows (_parse_table_row "T" (sample_table [PStr "A"] two_rows)) rows')
         (sample_table [PStr "A"] two_rows) (log_call (GetTable "T") db_two_rows))
    /\ placed_after "R1" (new_row (sample_table [PStr "A"] two_rows) "R3")
                    two_rows rows'.
Proof.
  destruct (add_row_inserts_one_row (add_row_after "T" "R3" "R1") "alice"
              db_two_rows "T" (sample_table [PStr "A"] two_rows) "R3")
    as (rows' & Hrun & _ & _ & Hplaced).
  - repeat split; done.
  - reflexivity.
  - done.
  - reflexivity.
  - vm_compute. reflexivity.
  - simpl. intros [H|[H|[]]]; discriminate H.
  - exists rows'. split; [exact Hrun|]. apply (Hplaced "R1"); done.
Defined.

Lemma filter_row_id_absent rid rows :
  ~ In rid (map r_rowId rows) ->
  List.filter (fun r => negb (String.eqb (r_rowId r) rid)) rows = rows.
Proof.
  induction rows as [|r rows IH]; simpl; [done|]. intros Hn.
  destruct (String.eqb_spec (r_rowId r) rid) as [Heq|_]; simpl.
  - destruct Hn. by left.
  - rewrite IH; [done|]. intros Hin. apply Hn. by right.
Qed.

Lemma filter_row_id_gone rid rows :
  ~ In rid (map r_rowId
              (List.filter (fun r => negb (String.eqb (r_rowId r) rid)) rows)).
Proof.
  intros (r & <- & [_ Hr]%filter_In)%in_map_iff.
  by rewrite String.eqb_refl in Hr.
Qed.

(** X7.  With no storage fault, a [deleteRow] with a non-empty [rowId] on an
    existing table returns [True] and stores the rows without those of that
    id, as the next version; when no row has that id the rows are stored
    back unchanged, still as a successful update. *)
Theorem delete_row_removes_the_row op c db tid tr rid :
  is_op_on op DELETE_ROW tid -> o_rowId op = Val rid -> rid <> "" ->
  db_faults db = [] -> db_tables db !! tid = Some tr ->
  exists rows',
    _apply_operation op c db
    = (Ok true,
       updated_db tid (with_rows (_parse_table_row tid tr) rows') tr
                  (log_call (GetTable tid) db))
    /\ rows' = List.filter (fun r => negb (String.eqb (r_rowId r) rid)) (tr_rows tr)
    /\ ~ In rid (map r_rowId rows')
    /\ (~ In rid (map r_rowId (tr_rows tr)) -> rows' = tr_rows tr).
Proof.
  intros Hop Hrid Hne Hf Ht.
  rewrite (apply_operation_dispatch op c db DELETE_ROW tid) by done.
  rewrite Ht. unfold try_except. simpl. rewrite Hrid. simpl.
  apply String.eqb_neq in Hne. rewrite Hne. simpl.
  erewrite update_table_ok; [|done|simpl; exact Ht]. simpl.
  eexists. split; [reflexivity|]. split; [done|]. split.
  - apply filter_row_id_gone.
  - apply filter_row_id_absent.
Qed.

Lemma delete_row_removes_the_row_witness :
  exists rows',
    _apply_operation (delete_row_op "T" "R1") "alice" db_two_rows
    = (Ok true,
       updated_db "T"
         (with_rows (_parse_table_row "T" (sample_table [PStr "A"] two_rows)) rows')
         (sample_table [PStr "A"] two_rows) (log_call (GetTable "T") db_two_rows))
    /\ rows' = [mkRow "R2" [PStr "b"] []].
Proof.
  destruct (delete_row_removes_the_row (delete_row_op "T" "R1") "alice"
              db_two_rows "T" (sample_table [PStr "A"] two_rows) "R1")
    as (rows' & Hrun & Hrows & _).
  - repeat split; done.
  - reflexivity.
  - done.
  - reflexivity.
  - vm_compute. reflexivity.
  - exists rows'. split; [exact Hrun|]. rewrite Hrows. reflexivity.
Defined.

(** ** Columns *)

(** For a non-negative index, insert-or-append is insertion at the index
    cut to the length. *)
Lemma insert_or_append_nonneg {A} i (x : A) l :
  (0 <= i)%Z -> insert_or_append i x l = take (Z.to_nat i) l ++ x :: drop (Z.to_nat i) l.
Proof.
  intros Hi. unfold insert_or_append, list_insert_at.
  destruct (Z.leb_spec 0 i); [|lia]. simpl.
  destruct (Z.leb_spec i (Z.of_nat (length l))); [done|].
  rewrite take_ge, drop_ge by lia. done.
Qed.

Lemma insert_or_append_outside {A} i (x : A) l :
  (i < 0 \/ Z.of_nat (length l) < i)%Z -> insert_or_append i x l = l ++ [x].
Proof.
  intros Hi. unfold insert_or_append.
  destruct (Z.leb_spec 0 i), (Z.leb_spec i (Z.of_nat (length l))); simpl;
    try done; lia.
Qed.

Lemma pop_insert {A} i (x : A) l :
  (0 <= i <= Z.of_nat (length l))%Z ->
  pop_if_in_range i (insert_or_append i x l) = l.
Proof.
  intros Hi. unfold pop_if_in_range.
  rewrite length_insert_or_append.
  destruct (Z.ltb_spec i (Z.of_nat (S (length l)))); [|lia].
  rewrite insert_or_append_nonneg by lia. unfold list_pop.
  rewrite take_app_le, take_take by (rewrite length_take; lia).
  rewrite Nat.min_id.
  rewrite drop_app_ge by (rewrite length_take; lia).
  rewrite length_take. replace (S (Z.to_nat i) - _) with 1 by lia.
  simpl. rewrite drop_0. apply take_drop.
Qed.

Lemma list_pop_insert {A} i (x : A) l :
  (0 <= i <= Z.of_nat (length l))%Z ->
  list_pop (Z.to_nat i) (insert_or_append i x l) = l.
Proof.
  intros Hi. pose proof (pop_insert i x l Hi) as H.
  unfold pop_if_in_range in H. rewrite length_insert_or_append in H.
  destruct (Z.ltb_spec i (Z.of_nat (S (length l)))); [done|lia].
Qed.

Lemma stored_meta_snoc_none row k :
  default None ((r_cellMeta row ++ [None]) !! k) = stored_meta row k.
Proof.
  unfold stored_meta. destruct (lt_dec k (length (r_cellMeta row))).
  - by rewrite lookup_app_l.
  - rewrite lookup_app_r by lia. rewrite (lookup_ge_None_2 (r_cellMeta row)) by lia.
    by destruct (k - _) as [|[|]].
Qed.

Lemma apply_add_column_ok op c db tid tr i :
  is_op_on op ADD_COLUMN tid ->
  dict_get_int (o_colIndex op) (Z.of_nat (length (tr_headers tr))) = Some i ->
  db_faults db = [] -> db_tables db !! tid = Some tr ->
  _apply_operation op c db
  = (Ok true,
     updated_db tid
       (with_headers_rows (_parse_table_row tid tr)
          (insert_or_append i
             (dict_get_str (o_header op)
                (PStr ("Column " ++ str_of_int (i + 1))%string))
             (tr_headers tr))
          (map (fun row =>
                  mkRow (r_rowId row)
                        (insert_or_append i (PStr "") (r_cells row))
                        (insert_or_append i None (r_cellMeta row)))
               (tr_rows tr)))
       tr (log_call (GetTable tid) db)).
Proof.
  intros Hop Hi Hf Ht.
  rewrite (apply_operation_dispatch op c db ADD_COLUMN tid) by done.
  rewrite Ht. unfold try_except. simpl. rewrite Hi.
  erewrite update_table_ok; [|done|simpl; exact Ht]. done.
Qed.

Lemma apply_delete_column_ok op c db tid tr i :
  is_op_on op DELETE_COLUMN tid -> o_colIndex op = Val i ->
  (0 <= i < Z.of_nat (length (tr_headers tr)))%Z ->
  db_faults db = [] -> db_tables db !! tid = Some tr ->
  _apply_operation op c db
  = (Ok true,
     updated_db tid
       (with_headers_rows (_parse_table_row tid tr)
          (list_pop (Z.to_nat i) (tr_headers tr))
          (map (fun row =>
                  mkRow (r_rowId row)
                        (pop_if_in_range i (r_cells row))
                        (pop_if_in_range i (r_cellMeta row)))
               (tr_rows tr)))
       tr (log_call (GetTable tid) db)).
Proof.
  intros Hop Hi Hr Hf Ht.
  rewrite (apply_operation_dispatch op c db DELETE_COLUMN tid) by done.
  rewrite Ht. unfold try_except. simpl. rewrite Hi. simpl.
  destruct (Z.ltb_spec i 0); [lia|].
  destruct (Z.leb_spec (Z.of_nat (length (tr_headers tr))) i); [lia|]. simpl.
  erewrite update_table_ok; [|done|simpl; exact Ht]. done.
Qed.

(** X8.  With no storage fault, on a table whose rows are as wide as its
    headers, an [addColumn] whose [colIndex] is negative or at least the
    number of headers (or missing) appends: the header goes last and every
    row, in the same order, gets an empty last cell.  A negative index does
    not count from the end. *)
Theorem add_column_outside_range_appends op c db tid tr i :
  is_op_on op ADD_COLUMN tid ->
  dict_get_int (o_colIndex op) (Z.of_nat (length (tr_headers tr))) = Some i ->
  (i < 0 \/ Z.of_nat (length (tr_headers tr)) <= i)%Z ->
  db_faults db = [] -> db_tables db !! tid = Some tr ->
  rows_match_headers tr = true ->
  exists db' tr',
    _apply_operation op c db = (Ok true, db')
    /\ db_tables db' !! tid = Some tr'
    /\ tr_headers tr'
       = tr_headers tr
         ++ [dict_get_str (o_header op)
               (PStr ("Column " ++ str_of_int (i + 1))%string)]
    /\ map r_rowId (tr_rows tr') = map r_rowId (tr_rows tr)
    /\ map r_cells (tr_rows tr')
       = map (fun r => r_cells r ++ [PStr ""]) (tr_rows tr).
Proof.
  intros Hop Hi Hout Hf Ht Hw.
  rewrite (apply_add_column_ok op c db tid tr i) by done.
  eexists _, _. split; [done|]. rewrite updated_db_lookup. split; [done|]. simpl.
  assert (Happ : forall {A} (x : A) l,
            length l = length (tr_headers tr) -> insert_or_append i x l = l ++ [x]).
  { intros A x l Hl. destruct (Z.eq_dec i (Z.of_nat (length l))) as [->|Hne].
    - rewrite insert_or_append_nonneg by lia.
      by rewrite Nat2Z.id, firstn_all, drop_all.
    - apply insert_or_append_outside. lia. }
  split; [by apply Happ|]. rewrite !map_map. simpl. split; [done|].
  apply rows_match_headers_width in Hw.
  apply map_ext_Forall. eapply Forall_impl; [exact Hw|].
  intros r Hr. simpl. by apply Happ.
Qed.

Lemma add_column_outside_range_appends_witness :
  exists db' tr',
    _apply_operation (add_column_op "T" (Val (-1)%Z) (Val "B")) "alice" db_two_rows
    = (Ok true, db')
    /\ db_tables db' !! "T" = Some tr'
    /\ tr_headers tr' = [PStr "A"] ++ [PStr "B"]
    /\ map r_rowId (tr_rows tr') = ["R1"; "R2"]
    /\ map r_cells (tr_rows tr') = [[PStr "a"; PStr ""]; [PStr "b"; PStr ""]].
Proof.
  apply (add_column_outside_range_appends
           (add_column_op "T" (Val (-1)%Z) (Val "B")) "alice" db_two_rows "T"
           (sample_table [PStr "A"] two_rows) (-1)%Z).
  - repeat split; done.
  - reflexivity.
  - left. lia.
  - reflexivity.
  - vm_compute. reflexivity.
  - reflexivity.
Defined.

(** X9.  With no storage fault, on a table whose rows are as wide as its
    headers, an [addColumn] at an index within [0, len(headers)] followed by
    a [deleteColumn] at the same index restores name, headers, and each
    row's id, cells and cell metadata; the version has gone up by two. *)
Theorem add_then_delete_column_restores op_add op_del c c' db tid tr i :
  is_op_on op_add ADD_COLUMN tid -> o_colIndex op_add = Val i ->
  is_op_on op_del DELETE_COLUMN tid -> o_colIndex op_del = Val i ->
  (0 <= i <= Z.of_nat (length (tr_headers tr)))%Z ->
  db_faults db = [] -> db_tables db !! tid = Some tr ->
  rows_match_headers tr = true ->
  exists db1 db2 tr2,
    _apply_operation op_add c db = (Ok true, db1)
    /\ _apply_operation op_del c' db1 = (Ok true, db2)
    /\ db_tables db2 !! tid = Some tr2
    /\ tr_name tr2 = tr_name tr
    /\ tr_headers tr2 = tr_headers tr
    /\ Forall2 same_row (tr_rows tr) (tr_rows tr2)
    /\ tr_version tr2 = (tr_version tr + 2)%Z.
Proof.
  intros Hadd Hia Hdel Hid Hi Hf Ht Hw.
  rewrite (apply_add_column_ok op_add c db tid tr i); [|done|by rewrite Hia|done|done].
  set (db1 := updated_db _ _ _ _).
  set (tr1 := mkTableRow (tr_name tr)
       (insert_or_append i
          (dict_get_str (o_header op_add)
             (PStr ("Column " ++ str_of_int (i + 1))%string)) (tr_headers tr))
       (map (fun row =>
               mkRow (r_rowId row) (insert_or_append i (PStr "") (r_cells row))
                     (insert_or_append i None (r_cellMeta row))) (tr_rows tr))
       (db_clock db) (tr_version tr + 1)).
  assert (Hl1 : db_tables db1 !! tid = Some tr1) by apply updated_db_lookup.
  eexists db1, _, _. split; [done|].
  rewrite (apply_delete_column_ok op_del c' db1 tid tr1 i Hdel Hid); [|
    simpl; rewrite length_insert_or_append; lia | done | exact Hl1].
  split; [done|]. rewrite updated_db_lookup. split; [done|]. simpl.
  split; [done|]. split; [by apply list_pop_insert|]. split; [|lia].
  rewrite map_map. simpl. apply rows_match_headers_width in Hw.
  apply Forall2_fmap_r, Forall_Forall2_diag.
  eapply Forall_impl; [exact Hw|]. intros r Hr. simpl in Hr.
  split; [done|]. simpl. split; [apply pop_insert; lia|].
  intros k. unfold stored_meta at 1. simpl.
  destruct (Z.leb_spec i (Z.of_nat (length (r_cellMeta r)))).
  - by rewrite pop_insert by lia.
  - rewrite insert_or_append_outside by lia. unfold pop_if_in_range.
    rewrite length_app. simpl.
    destruct (Z.ltb_spec i (Z.of_nat (length (r_cellMeta r) + 1))); [lia|].
    apply stored_meta_snoc_none.
Qed.

Lemma add_then_delete_column_restores_witness :
  exists db1 db2 tr2,
    _apply_operation (add_column_op "T" (Val 0%Z) (Val "B")) "alice" db_two_rows
    = (Ok true, db1)
    /\ _apply_operation (delete_column_op "T" (Val 0%Z)) "bob" db1 = (Ok true, db2)
    /\ db_tables db2 !! "T" = Some tr2
    /\ tr_name tr2 = "Sheet"
    /\ tr_headers tr2 = [PStr "A"]
    /\ Forall2 same_row two_rows (tr_rows tr2)
    /\ tr_version tr2 = 3%Z.
Proof.
  apply (add_then_delete_column_restores
           (add_column_op "T" (Val 0%Z) (Val "B")) (delete_column_op "T" (Val 0%Z))
           "alice" "bob" db_two_rows "T" (sample_table [PStr "A"] two_rows) 0%Z).
  - repeat split; done.
  - reflexivity.
  - repeat split; done.
  - reflexivity.
  - simpl. lia.
  - reflexivity.
  - vm_compute. reflexivity.
  - reflexivity.
Defined.

(** X10.  With no storage fault, a [deleteColumn] or [setHeader] on an
    existing table whose [colIndex] is missing, null, negative or not below
    the number of headers is rejected after the read of the table, with
    nothing written. *)
Theorem column_index_out_of_range_rejected op c db tid tr ty :
  ty = DELETE_COLUMN \/ ty = SET_HEADER ->
  is_op_on op ty tid ->
  db_faults db = [] -> db_tables db !! tid = Some tr ->
  (forall i, dict_get (o_colIndex op) = Some i ->
             (i < 0 \/ Z.of_nat (length (tr_headers tr)) <= i)%Z) ->
  _apply_operation op c db = (Ok false, log_call (GetTable tid) db).
Proof.
  intros Hty Hop Hf Ht Hout.
  rewrite (apply_operation_dispatch op c db ty tid) by done.
  rewrite Ht. unfold try_except.
  destruct Hty as [-> | ->]; simpl;
    destruct (dict_get (o_colIndex op)) as [i|]; try done;
    specialize (Hout i eq_refl).
  - destruct (Z.ltb_spec i 0), (Z.leb_spec (Z.of_nat (length (tr_headers tr))) i);
      simpl; try done; lia.
  - destruct (Z.leb_spec 0 i), (Z.ltb_spec i (Z.of_nat (length (tr_headers tr))));
      simpl; try done; lia.
Qed.

Lemma column_index_out_of_range_rejected_witness :
  _apply_operation (set_header_op "T" (Val 5%Z) (Val "H")) "alice" db_two_rows
  = (Ok false, log_call (GetTable "T") db_two_rows).
Proof.
  apply (column_index_out_of_range_rejected
           (set_header_op "T" (Val 5%Z) (Val "H")) "alice" db_two_rows "T"
           (sample_table [PStr "A"] two_rows) SET_HEADER).
  - by right.
  - repeat split; done.
  - reflexivity.
  - vm_compute. reflexivity.
  - intros i [= <-]. simpl. lia.
Defined.

(** X11.  With no storage fault, a [setHeader] with [colIndex] within the
    headers replaces that one header (by the empty string when the operation
    has no [header]) and keeps the number of headers, the rows and the
    name. *)
Theorem set_header_replaces_one_header op c db tid tr i :
  is_op_on op SET_HEADER tid -> o_colIndex op = Val i ->
  (0 <= i < Z.of_nat (length (tr_headers tr)))%Z ->
  db_faults db = [] -> db_tables db !! tid = Some tr ->
  exists db' tr',
    _apply_operation op c db = (Ok true, db')
    /\ db_tables db' !! tid = Some tr'
    /\ tr_headers tr'
       = <[Z.to_nat i := dict_get_str (o_header op) (PStr "")]> (tr_headers tr)
    /\ length (tr_headers tr') = length (tr_headers tr)
    /\ tr_rows tr' = tr_rows tr /\ tr_name tr' = tr_name tr.
Proof.
  intros Hop Hi Hr Hf Ht.
  rewrite (apply_operation_dispatch op c db SET_HEADER tid) by done.
  rewrite Ht. unfold try_except. simpl. rewrite Hi. simpl.
  destruct (Z.leb_spec 0 i); [|lia].
  destruct (Z.ltb_spec i (Z.of_nat (length (tr_headers tr)))); [|lia]. simpl.
  erewrite update_table_ok; [|done|simpl; exact Ht].
  eexists _, _. split; [done|]. rewrite updated_db_lookup. split; [done|].
  simpl. by rewrite length_insert.
Qed.

Lemma set_header_replaces_one_header_witness :
  exists db' tr',
    _apply_operation (set_header_op "T" (Val 0%Z) (Val "Name")) "alice" db_two_rows
    = (Ok true, db')
    /\ db_tables db' !! "T" = Some tr'
    /\ tr_headers tr'
       = <[Z.to_nat 0 := dict_get_str (Val "Name") (PStr "")]> [PStr "A"]
    /\ length (tr_headers tr') = 1
    /\ tr_rows tr' = two_rows /\ tr_name tr' = "Sheet".
Proof.
  apply (set_header_replaces_one_header (set_header_op "T" (Val 0%Z) (Val "Name"))
           "alice" db_two_rows "T" (sample_table [PStr "A"] two_rows) 0%Z).
  - repeat split; done.
  - reflexivity.
  - simpl. lia.
  - reflexivity.
  - vm_compute. reflexivity.
Defined.

(** X12.  With no storage fault, a [renameTable] on an existing table is
    rejected when [name] is missing, null or empty; otherwise it stores the
    table under the new name with the same headers and rows, version plus
    one, by one read and one update. *)
Theorem rename_table_changes_only_the_name op c db tid tr :
  is_op_on op RENAME_TABLE tid ->
  db_faults db = [] -> db_tables db !! tid = Some tr ->
  (truthy (dict_get (o_name op)) = false ->
   _apply_operation op c db = (Ok false, log_call (GetTable tid) db))
  /\ (forall name, o_name op = Val name -> name <> "" ->
      _apply_operation op c db
      = (Ok true,
         mkDb (<[tid := mkTableRow name (tr_headers tr) (tr_rows tr) (db_clock db)
                                   (tr_version tr + 1)]> (db_tables db))
              (db_events db) (db_clock db + 1) []
              (db_calls db ++ [GetTable tid; UpdateTable tid]))).
Proof.
  intros Hop Hf Ht.
  rewrite (apply_operation_dispatch op c db RENAME_TABLE tid) by done.
  rewrite Ht. unfold try_except. simpl. split.
  - intros ->. done.
  - intros name -> Hne. simpl. apply String.eqb_neq in Hne. rewrite Hne. simpl.
    erewrite update_table_ok; [|done|simpl; exact Ht].
    unfold updated_db, log_call. simpl. by rewrite Hf, <- app_assoc.
Qed.

Lemma rename_table_changes_only_the_name_witness :
  _apply_operation (rename_table_op "T" (Val "Plan")) "alice" db_two_rows
  = (Ok true,
     mkDb (<["T" := mkTableRow "Plan" [PStr "A"] two_rows 1000 2]>
             (db_tables db_two_rows))
          [] 1001 [] [GetTable "T"; UpdateTable "T"]).
Proof.
  destruct (rename_table_changes_only_the_name
              (rename_table_op "T" (Val "Plan")) "alice" db_two_rows "T"
              (sample_table [PStr "A"] two_rows)) as [_ H].
  - repeat split; done.
  - reflexivity.
  - vm_compute. reflexivity.
  - apply (H "Plan"); done.
Defined.

(** ** Rejected operations *)

Lemma not_known_is_op s ty : ~ In s known_op_types -> is_op s ty = false.
Proof.
  intros Hn. apply String.eqb_neq. intros ->. apply Hn.
  unfold known_op_types. by apply in_map; destruct ty; simpl; tauto.
Qed.

(** X13.  With no storage fault, an operation on a non-empty [tableId] whose
    non-empty [op] is none of the eight known types is rejected after the
    read of the table: nothing is written. *)
Theorem unknown_operation_type_rejected op c db tid s :
  o_op op = Val s -> s <> "" -> ~ In s known_op_types ->
  o_tableId op = Val tid -> tid <> "" -> db_faults db = [] ->
  _apply_operation op c db = (Ok false, log_call (GetTable tid) db).
Proof.
  intros Hop Hs Hn Htid Hne Hf. unfold _apply_operation, try_except.
  rewrite Hop, Htid. simpl.
  apply String.eqb_neq in Hs, Hne. rewrite Hs, Hne. simpl.
  unfold bind at 1. rewrite get_table_ok by done.
  by rewrite !not_known_is_op.
Qed.

Lemma unknown_operation_type_rejected_witness :
  _apply_operation move_row_op "alice" db_two_rows
  = (Ok false, log_call (GetTable "T") db_two_rows).
Proof.
  apply (unknown_operation_type_rejected move_row_op "alice" db_two_rows "T" "moveRow").
  - reflexivity.
  - done.
  - unfold known_op_types. simpl. intuition discriminate.
  - reflexivity.
  - done.
  - reflexivity.
Defined.

(** X14.  With no storage fault, a [setCell] on an existing table whose
    [rowId] names no row of it is rejected with nothing written: [setCell]
    never creates a row. *)
Theorem set_cell_on_absent_row_rejected op c db tid tr rid col :
  is_set_cell op tid rid col ->
  db_faults db = [] -> db_tables db !! tid = Some tr ->
  ~ In rid (map r_rowId (tr_rows tr)) ->
  _apply_operation op c db = (Ok false, log_call (GetTable tid) db).
Proof.
  intros (Hop & Htid & Hne & Hrid & Hcol) Hf Ht Hn.
  erewrite apply_set_cell_run by eauto.
  unfold try_except. rewrite set_cell_rows_absent; [done|].
  apply Forall_forall. intros r Hr Heq. apply Hn.
  apply list_elem_of_In in Hr. rewrite <- Heq. by apply in_map.
Qed.

Lemma set_cell_on_absent_row_rejected_witness :
  _apply_operation (set_cell_op "T" "R9" 0 (Val "x") (Val 5%Z)) "alice" db_two_rows
  = (Ok false, log_call (GetTable "T") db_two_rows).
Proof.
  apply (set_cell_on_absent_row_rejected
           (set_cell_op "T" "R9" 0 (Val "x") (Val 5%Z)) "alice" db_two_rows "T"
           (sample_table [PStr "A"] two_rows) "R9" 0%Z).
  - repeat split; done.
  - reflexivity.
  - vm_compute. reflexivity.
  - simpl. intuition discriminate.
Defined.

(** X15.  With no storage fault, a [setCell] with a non-zero timestamp that
    was applied to the one row of its id is rejected when the same client
    sends it again: the stored metadata now ties with it on timestamp and
    client, and a tie does not win.  The retry leaves the tables as they
    are. *)
Theorem set_cell_retry_is_rejected op c db tid tr pre row post (col : nat) ts :
  is_set_cell op tid (r_rowId row) (Z.of_nat col) ->
  o_ts op = Val ts -> ts <> 0%Z ->
  db_faults db = [] -> db_tables db !! tid = Some tr ->
  sole_row tr pre row post ->
  meta_unset (stored_meta row col) || beats (Some ts) c (stored_meta row col) = true ->
  exists db1 db2,
    _apply_operation op c db = (Ok true, db1)
    /\ _apply_operation op c db1 = (Ok false, db2)
    /\ db_tables db2 = db_tables db1.
Proof.
  intros Hop Hts Hnz Hf Ht Hsole Hpass.
  destruct Hsole as (Hrows & Hpre & Hpost).
  rewrite (set_cell_nat_outcome op c db tid tr pre row post col) by done.
  rewrite Hts. simpl dict_get. rewrite Hpass.
  set (v := dict_get_str (o_value op) (PStr "")).
  set (row1 := written_row row col v (Some ts) c).
  set (db1 := updated_db _ _ _ _).
  set (tr1 := mkTableRow (tr_name tr) (tr_headers tr) (pre ++ row1 :: post)
                         (db_clock db) (tr_version tr + 1)).
  assert (Hl1 : db_tables db1 !! tid = Some tr1) by apply updated_db_lookup.
  eexists db1, _. split; [done|].
  rewrite (set_cell_nat_outcome op c db1 tid tr1 pre row1 post col);
    [|done|done|done|done].
  rewrite Hts. cbn [dict_get].
  assert (Hm : stored_meta row1 col = Some (mkCellMeta v (Some ts) c))
    by apply written_row_meta.
  rewrite Hm. unfold meta_unset, beats, lex_gt. cbn [m_ts m_by].
  apply Z.eqb_neq in Hnz. rewrite Hnz, Z.ltb_irrefl, Z.eqb_refl.
  assert (Hc : String.ltb c c = false).
  { unfold String.ltb. destruct (String.compare c c) eqn:E; try done.
    pose proof (String.compare_antisym c c) as Ha. rewrite E in Ha. done. }
  rewrite Hc. simpl. done.
Qed.

Lemma set_cell_retry_is_rejected_witness :
  exists db1 db2,
    _apply_operation (set_cell_op "T" "R" 0 (Val "c") (Val 100%Z)) "carol"
      (sample_db [PStr "A"] [fresh_row] []) = (Ok true, db1)
    /\ _apply_operation (set_cell_op "T" "R" 0 (Val "c") (Val 100%Z)) "carol" db1
       = (Ok false, db2)
    /\ db_tables db2 = db_tables db1.
Proof.
  apply (set_cell_retry_is_rejected
           (set_cell_op "T" "R" 0 (Val "c") (Val 100%Z)) "carol"
           (sample_db [PStr "A"] [fresh_row] []) "T"
           (sample_table [PStr "A"] [fresh_row]) [] fresh_row [] 0 100%Z).
  - repeat split; done.
  - reflexivity.
  - done.
  - reflexivity.
  - vm_compute. reflexivity.
  - repeat split; constructor.
  - reflexivity.
Defined.

(** ** A push and the event log *)

Lemma applied_operation_not_empty op c db db' :
  _apply_operation op c db = (Ok true, db') -> operation_is_empty op = false.
Proof.
  unfold _apply_operation, try_except.
  destruct (o_op op) as [| |s] eqn:Eop; simpl; try done.
  intros _. unfold operation_is_empty. by rewrite Eop.
Qed.

Lemma add_sync_event_inv cursor c op db r db' :
  add_sync_event cursor c op db = (r, db') ->
  db_tables db' = db_tables db
  /\ (db_events db' = db_events db /\ (forall i, r <> Ok i)
      \/ exists i now,
           r = Ok i
           /\ db_events db' = db_events db ++ [mkEvent i cursor c op now true]
           /\ i = next_event_id (db_events db)
           /\ ~ In cursor (map e_cursor (db_events db))).
Proof.
  unfold add_sync_event, bind.
  destruct (storage_call _ db) as [[[]|e] db1] eqn:E;
    apply storage_call_tables in E as [Ht He].
  - unfold utcnow, get_db. simpl. rewrite He.
    destruct (existsb _ _) eqn:Ex.
    + unfold raise. intros [= <- <-]. simpl. split; [done|]. left. by split.
    + unfold set_events, ret. simpl. intros [= <- <-]. simpl. split; [done|].
      right. eexists _, _. repeat split. by apply existsb_cursor_false.
  - intros [= <- <-]. split; [done|]. left. by split.
Qed.

Lemma generate_cursor_run h c op db :
  exists cursor db1,
    _generate_cursor h c op db = (Ok cursor, db1)
    /\ cursor <> "0"
    /\ db_tables db1 = db_tables db /\ db_events db1 = db_events db.
Proof.
  unfold _generate_cursor, bind, utcnow, ret. simpl. eexists _, _.
  split; [reflexivity|]. split; [|done].
  destruct (str_of_int _) as [|a s]; simpl; [done|].
  intros [= _ Hs]. by destruct s.
Qed.

Lemma process_ops_accounting h c ops : forall confl app db confl' app' db',
  process_ops h c ops confl app db = (Ok (confl', app'), db') ->
  exists new_conflicts new,
    confl' = confl ++ new_conflicts
    /\ app' = app ++ map e_operation new
    /\ db_events db' = db_events db ++ new
    /\ Forall (event_of_push c) new
    /\ Forall (fun x => c_reason x = "Failed to apply") new_conflicts
    /\ sublist (map e_operation new) ops
    /\ sublist (map c_operation new_conflicts) ops
    /\ ops ≡ₚ map c_operation new_conflicts ++ map e_operation new.
Proof.
  induction ops as [|op rest IH]; intros confl app db confl' app' db'; simpl.
  - intros [= <- <- <-]. exists [], []. rewrite !app_nil_r. by repeat split.
  - unfold bind at 1.
    destruct (_apply_operation op c db) as [r db1] eqn:Ea.
    pose proof (apply_operation_effect _ _ _ _ _ Ea) as [He1 _].
    destruct r as [[|]|e]; [| |done].
    + apply applied_operation_not_empty in Ea.
      unfold bind at 1.
      destruct (generate_cursor_run h c op db1) as (cur & db2 & -> & _ & _ & He2).
      unfold bind at 1.
      destruct (add_sync_event cur c op db2) as [r3 db3] eqn:Es.
      apply add_sync_event_inv in Es as [_ [[_ Hno]|(i & now & -> & He3 & _)]].
      { destruct r3; [by destruct (Hno a)|done]. }
      intros Hp. apply IH in Hp
        as (nc & new & -> & -> & Hev & Hall & Hr & Hs1 & Hs2 & Hperm).
      exists nc, (mkEvent i cur c op now true :: new).
      rewrite Hev, He3, He2, He1. simpl. rewrite <- !app_assoc. simpl.
      repeat split; try done.
      * by constructor.
      * by apply sublist_skip.
      * by apply sublist_cons.
      * rewrite Hperm. by rewrite Permutation_middle.
    + intros Hp. apply IH in Hp
        as (nc & new & -> & -> & Hev & Hall & Hr & Hs1 & Hs2 & Hperm).
      exists (mkConflict op "Failed to apply" :: nc), new.
      rewrite Hev, He1. simpl. rewrite <- !app_assoc. simpl.
      repeat split; try done.
      * by constructor.
      * by apply sublist_cons.
      * by apply sublist_skip.
      * by rewrite Hperm.
Qed.

Lemma get_latest_cursor_inv db r db' :
  get_latest_cursor db = (r, db') ->
  db_tables db' = db_tables db /\ db_events db' = db_events db
  /\ (forall s, r = Ok s -> s = latest_cursor (db_events db)).
Proof.
  unfold get_latest_cursor, bind.
  destruct (storage_call _ db) as [[[]|e] db1] eqn:E;
    apply storage_call_tables in E as [Ht He].
  - unfold get_db, ret. intros [= <- <-]. rewrite He. repeat split; try done.
    by intros s [= <-].
  - intros [= <- <-]. done.
Qed.

Lemma get_events_since_events cursor limit db r db' :
  get_events_since cursor limit db = (r, db') ->
  db_tables db' = db_tables db /\ db_events db' = db_events db.
Proof.
  unfold get_events_since, bind.
  destruct (storage_call _ db) as [[[]|e] db1] eqn:E;
    apply storage_call_tables in E as [Ht He].
  - unfold get_db, ret. by intros [= <- <-].
  - by intros [= <- <-].
Qed.

Lemma process_sync_accounting h c base ops db r db' :
  process_sync h c base ops db = (Ok r, db') ->
  exists new,
    db_events db' = db_events db ++ new
    /\ Forall (event_of_push c) new
    /\ Forall (fun x => c_reason x = "Failed to apply") (sr_conflicts r)
    /\ sublist (map e_operation new) ops
    /\ sublist (map c_operation (sr_conflicts r)) ops
    /\ ops ≡ₚ map c_operation (sr_conflicts r) ++ map e_operation new.
Proof.
  unfold process_sync. unfold bind at 1.
  destruct (process_ops h c ops [] [] db) as [[[confl app]|e0] db1] eqn:Ep; [|done].
  apply process_ops_accounting in Ep
    as (nc & new & -> & _ & Hev & Hall & Hr & Hs1 & Hs2 & Hperm).
  unfold bind at 1.
  destruct (get_latest_cursor db1) as [[latest|e1] db2] eqn:El; [|done].
  apply get_latest_cursor_inv in El as (_ & He2 & _).
  unfold bind at 1, _get_other_client_changes, bind at 1.
  destruct (get_events_since base default_limit db2) as [[evs|e2] db3] eqn:Ee;
    [|done].
  apply get_events_since_events in Ee as [_ He3].
  unfold ret. intros [= <- <-]. simpl. exists new.
  rewrite He3, He2. by repeat split.
Qed.

(** X16.  A push that returns accounts for every operation exactly once:
    the operations are, up to order, those of the returned conflicts (each
    with reason ["Failed to apply"]) and those of the events appended to the
    log; both keep the order of the request, and each appended event names
    the pushing client, is marked applied and has a non-empty operation. *)
Theorem push_accounts_for_every_operation h c base ops db r db' :
  process_sync h c base ops db = (Ok r, db') ->
  exists new,
    db_events db' = db_events db ++ new
    /\ Forall (event_of_push c) new
    /\ Forall (fun x => c_reason x = "Failed to apply") (sr_conflicts r)
    /\ sublist (map e_operation new) ops
    /\ sublist (map c_operation (sr_conflicts r)) ops
    /\ ops ≡ₚ map c_operation (sr_conflicts r) ++ map e_operation new.
Proof. apply process_sync_accounting. Qed.

Lemma push_accounts_for_every_operation_witness :
  exists new,
    db_events (snd carol_push) = db_events (db_with_events 2) ++ new
    /\ Forall (event_of_push "carol") new
    /\ Forall (fun x => c_reason x = "Failed to apply")
              (sr_conflicts carol_push_result)
    /\ sublist (map e_operation new) carol_ops
    /\ sublist (map c_operation (sr_conflicts carol_push_result)) carol_ops
    /\ carol_ops ≡ₚ map c_operation (sr_conflicts carol_push_result)
                    ++ map e_operation new.
Proof.
  apply (push_accounts_for_every_operation sample_hash "carol" "0" carol_ops
           (db_with_events 2) carol_push_result (snd carol_push)).
  vm_compute. reflexivity.
Defined.

Lemma log_wf_snoc evs cursor c op now :
  log_wf evs -> cursor <> "0" -> ~ In cursor (map e_cursor evs) ->
  log_wf (evs ++ [mkEvent (next_event_id evs) cursor c op now true]).
Proof.
  intros (Hs & Hn & Hz) Hc Ex. split; [|split].
  - rewrite map_app. simpl. apply sorted_snoc; [done|].
    by apply next_event_id_above.
  - rewrite map_app. simpl. apply NoDup_app. split; [done|]. split.
    + intros x Hx [->|[]]%list_elem_of_In. by apply Ex, list_elem_of_In.
    + apply NoDup_singleton.
  - apply Forall_app. split; [done|]. by repeat constructor.
Qed.

Lemma process_ops_wf h c ops : forall confl app db r db',
  log_wf (db_events db) ->
  process_ops h c ops confl app db = (r, db') -> log_wf (db_events db').
Proof.
  induction ops as [|op rest IH]; intros confl app db r db' Hwf; simpl.
  - by intros [= <- <-].
  - unfold bind at 1.
    destruct (_apply_operation op c db) as [r1 db1] eqn:Ea.
    pose proof (apply_operation_effect _ _ _ _ _ Ea) as [He1 _].
    destruct r1 as [[|]|e].
    + unfold bind at 1.
      destruct (generate_cursor_run h c op db1) as (cur & db2 & -> & Hc & _ & He2).
      unfold bind at 1.
      destruct (add_sync_event cur c op db2) as [r3 db3] eqn:Es.
      apply add_sync_event_inv in Es
        as [_ [[He3 _]|(i & now & -> & He3 & -> & Hfresh)]].
      * destruct r3.
        -- apply IH. by rewrite He3, He2, He1.
        -- intros [= <- <-]. by rewrite He3, He2, He1.
      * apply IH. rewrite He3, He2, He1. apply log_wf_snoc; [done|done|].
        by rewrite <- He1, <- He2.
    + apply IH. by rewrite He1.
    + intros [= <- <-]. by rewrite He1.
Qed.

Lemma process_sync_wf h c base ops db r db' :
  log_wf (db_events db) ->
  process_sync h c base ops db = (r, db') ->
  log_wf (db_events db').
Proof.
  intros Hwf. unfold process_sync. unfold bind at 1.
  destruct (process_ops h c ops [] [] db) as [r1 db1] eqn:Ep.
  apply process_ops_wf in Ep; [|done].
  destruct r1 as [[confl app]|e0]; [|by intros [= <- <-]].
  unfold bind at 1.
  destruct (get_latest_cursor db1) as [r2 db2] eqn:El.
  apply get_latest_cursor_inv in El as (_ & He2 & _).
  destruct r2 as [latest|e1]; [|intros [= <- <-]; by rewrite He2].
  unfold bind at 1, _get_other_client_changes, bind at 1.
  destruct (get_events_since base default_limit db2) as [r3 db3] eqn:Ee.
  apply get_events_since_events in Ee as [_ He3].
  destruct r3 as [evs|e2]; unfold ret; intros [= <- <-]; by rewrite He3, He2.
Qed.

(** X17.  A push on a well-formed log, whether it returns or raises, leaves
    a well-formed log: ids strictly increasing, cursors distinct, none of
    them ["0"]. *)
Theorem push_keeps_log_well_formed h c base ops db r db' :
  log_wf (db_events db) ->
  process_sync h c base ops db = (r, db') ->
  log_wf (db_events db').
Proof. apply process_sync_wf. Qed.

Lemma push_keeps_log_well_formed_witness :
  log_wf (db_events (snd carol_push)).
Proof.
  apply (push_keeps_log_well_formed sample_hash "carol" "0" carol_ops
           (db_with_events 2) (fst carol_push) (snd carol_push)).
  - apply (bool_decide_unpack _). vm_compute. reflexivity.
  - apply surjective_pairing.
Defined.

Lemma process_sync_cursor h c base ops db res db' :
  process_sync h c base ops db = (Ok res, db') ->
  sr_cursor res = latest_cursor (db_events db').
Proof.
  unfold process_sync. unfold bind at 1.
  destruct (process_ops h c ops [] [] db) as [[[confl app]|e0] db1]; [|done].
  unfold bind at 1.
  destruct (get_latest_cursor db1) as [[latest|e1] db2] eqn:El; [|done].
  apply get_latest_cursor_inv in El as (_ & He2 & Hl).
  unfold bind at 1, _get_other_client_changes, bind at 1.
  destruct (get_events_since base default_limit db2) as [[evs|e2] db3] eqn:Ee;
    [|done].
  apply get_events_since_events in Ee as [_ He3].
  unfold ret. intros [= <- <-]. simpl. rewrite He3, He2. by apply Hl.
Qed.

(** X18.  On a well-formed log the cursor a push returns is the latest
    cursor of the log it leaves, and a pull with that cursor, met by no
    fault, brings no deltas and the same cursor. *)
Theorem pull_after_push_is_empty h c base ops db res db' :
  log_wf (db_events db) ->
  process_sync h c base ops db = (Ok res, db') ->
  db_faults db' = [] ->
  sr_cursor res = latest_cursor (db_events db')
  /\ pull_is_empty (sr_cursor res) db'.
Proof.
  intros Hwf Hp Hf.
  pose proof (process_sync_wf _ _ _ _ _ _ _ Hwf Hp) as Hwf'.
  pose proof (process_sync_cursor _ _ _ _ _ _ _ Hp) as Hc.
  split; [done|]. unfold pull_is_empty.
  destruct (get_changes_since_ok (sr_cursor res) db' Hf) as (tables & db2 & -> & _).
  rewrite Hc, events_since_latest by done. csimpl. eauto.
Qed.

Lemma pull_after_push_is_empty_witness :
  sr_cursor carol_push_result = latest_cursor (db_events (snd carol_push))
  /\ pull_is_empty (sr_cursor carol_push_result) (snd carol_push).
Proof.
  apply (pull_after_push_is_empty sample_hash "carol" "0" carol_ops
           (db_with_events 2) carol_push_result (snd carol_push)).
  - apply (bool_decide_unpack _). vm_compute. reflexivity.
  - vm_compute. reflexivity.
  - vm_compute. reflexivity.
Defined.

(** ** The events since a cursor *)

Lemma filter_all {A} (f : A -> bool) l :
  Forall (fun x => f x = true) l -> List.filter f l = l.
Proof. induction 1 as [|x l Hx _ IH]; simpl; [done|]. by rewrite Hx, IH. Qed.

Lemma sorted_app_lt (l1 l2 : list Z) :
  StronglySorted Z.lt (l1 ++ l2) ->
  forall x y, In x l1 -> In y l2 -> (x < y)%Z.
Proof.
  induction l1 as [|a l1 IH]; simpl; [done|].
  intros Hs x y [->|Hx] Hy.
  - inversion Hs as [|? ? _ Hall]; subst.
    rewrite Forall_forall in Hall. apply Hall, list_elem_of_In, in_or_app. by right.
  - inversion Hs; subst. by apply IH.
Qed.

Lemma sorted_app_r (l1 l2 : list Z) :
  StronglySorted Z.lt (l1 ++ l2) -> StronglySorted Z.lt l2.
Proof.
  induction l1 as [|a l1 IH]; simpl; [done|].
  intros Hs. inversion Hs; subst. by apply IH.
Qed.

Lemma events_since_suffix pre e post limit :
  log_wf (pre ++ e :: post) ->
  events_since (e_cursor e) limit (pre ++ e :: post) = take limit post.
Proof.
  intros (Hs & Hn & Hz). unfold events_since.
  assert (Hne : e_cursor e <> "0").
  { apply Forall_app in Hz as [_ Hz]. by inversion Hz. }
  apply String.eqb_neq in Hne. rewrite Hne.
  unfold cursor_id. rewrite find_app_list, find_none_fresh.
  2: { rewrite map_app in Hn. apply NoDup_app in Hn as (_ & Hdisj & _).
       intros Hin. apply (Hdisj (e_cursor e)); [by apply list_elem_of_In|].
       simpl. by left. }
  simpl. rewrite String.eqb_refl. simpl. f_equal.
  rewrite map_app in Hs. simpl in Hs.
  rewrite List.filter_app. simpl. rewrite Z.ltb_irrefl.
  rewrite filter_none, filter_all; [done| |].
  - apply Forall_forall. intros x Hx%list_elem_of_In. apply Z.ltb_lt.
    apply sorted_app_r in Hs. inversion Hs as [|? ? _ Hall]; subst.
    rewrite Forall_forall in Hall. apply Hall, list_elem_of_In, in_map. done.
  - apply Forall_forall. intros x Hx%list_elem_of_In. apply Z.ltb_ge.
    apply Z.lt_le_incl. apply (sorted_app_lt _ _ Hs); [by apply in_map|].
    simpl. by left.
Qed.

(** X19.  On a well-formed log the events since the cursor of an event are
    the events appended after it, cut to the limit. *)
Theorem events_since_is_the_suffix pre e post limit :
  log_wf (pre ++ e :: post) ->
  events_since (e_cursor e) limit (pre ++ e :: post) = take limit post.
Proof. apply events_since_suffix. Qed.

Lemma events_since_is_the_suffix_witness :
  events_since (e_cursor (numbered_event 2)) 100
    ([numbered_event 1] ++ numbered_event 2 :: [numbered_event 3; numbered_event 4])
  = take 100 [numbered_event 3; numbered_event 4].
Proof.
  apply (events_since_is_the_suffix [numbered_event 1] (numbered_event 2)
           [numbered_event 3; numbered_event 4] 100).
  apply (bool_decide_unpack _). vm_compute. reflexivity.
Defined.

Lemma events_since_latest_app evs new limit :
  log_wf (evs ++ new) ->
  events_since (latest_cursor evs) limit (evs ++ new) = take limit new.
Proof.
  intros Hwf. unfold latest_cursor.
  destruct (last evs) as [e|] eqn:El.
  - apply last_Some in El as [init ->]. rewrite <- app_assoc in *. simpl in *.
    by apply events_since_suffix.
  - apply last_None in El as ->. done.
Qed.

Lemma omap_event_to_delta_push c new :
  Forall (event_of_push c) new ->
  length (omap _event_to_delta new) = length new
  /\ Forall (fun d => d_by d = c) (omap _event_to_delta new).
Proof.
  induction 1 as [|e new (Hc & _ & He) _ [IHl IHf]]; csimpl; [done|].
  destruct (_event_to_delta e) as [d|] eqn:Ed.
  - csimpl. split; [by rewrite IHl|]. constructor; [|exact IHf].
    by rewrite (event_to_delta_by e d Ed).
  - unfold _event_to_delta in Ed. by rewrite He in Ed.
Qed.

(** X20.  After a push of at most 100 operations on a well-formed log, a
    pull (met by no fault) with the cursor that was the latest before the
    push returns the deltas of exactly the events the push appended, all by
    the pushing client; their number and that of the conflicts add up to
    the number of operations. *)
Theorem pushed_operations_reach_the_next_pull h c base ops db res db' :
  log_wf (db_events db) ->
  process_sync h c base ops db = (Ok res, db') ->
  db_faults db' = [] -> length ops <= default_limit ->
  exists new tables db'',
    db_events db' = db_events db ++ new
    /\ get_changes_since (latest_cursor (db_events db)) db'
       = (Ok (mkChanges (sr_cursor res) (omap _event_to_delta new) tables), db'')
    /\ length (omap _event_to_delta new) + length (sr_conflicts res) = length ops
    /\ Forall (fun d => d_by d = c) (omap _event_to_delta new).
Proof.
  intros Hwf Hp Hf Hlen.
  pose proof (process_sync_wf _ _ _ _ _ _ _ Hwf Hp) as Hwf'.
  pose proof (process_sync_cursor _ _ _ _ _ _ _ Hp) as Hc.
  destruct (process_sync_accounting _ _ _ _ _ _ _ Hp)
    as (new & Hev & Hall & _ & _ & _ & Hperm).
  destruct (omap_event_to_delta_push c new Hall) as [Hl Hby].
  apply Permutation_length in Hperm. rewrite length_app, !length_map in Hperm.
  destruct (get_changes_since_ok (latest_cursor (db_events db)) db' Hf)
    as (tables & db2 & Hg & _).
  exists new, tables, db2. split; [done|]. split; [|split; [lia|done]].
  rewrite Hg, Hc. rewrite Hev in *.
  rewrite events_since_latest_app by done.
  rewrite take_ge by lia. done.
Qed.

Lemma pushed_operations_reach_the_next_pull_witness :
  exists new tables db'',
    db_events (snd carol_push) = db_events (db_with_events 2) ++ new
    /\ get_changes_since (latest_cursor (db_events (db_with_events 2)))
         (snd carol_push)
       = (Ok (mkChanges (sr_cursor carol_push_result)
                (omap _event_to_delta new) tables), db'')
    /\ length (omap _event_to_delta new) + length (sr_conflicts carol_push_result)
       = length carol_ops
    /\ Forall (fun d => d_by d = "carol") (omap _event_to_delta new).
Proof.
  apply (pushed_operations_reach_the_next_pull sample_hash "carol" "0" carol_ops
           (db_with_events 2) carol_push_result (snd carol_push)).
  - apply (bool_decide_unpack _). vm_compute. reflexivity.
  - vm_compute. reflexivity.
  - vm_compute. reflexivity.
  - vm_compute. lia.
Defined.



(** ** Pulls *)

(** X22.  With no storage fault, a pull with a cursor other than ["0"] that
    no event carries returns no deltas and no tables, and the latest cursor
    of the log. *)
Theorem pull_with_unknown_cursor_returns_nothing cursor db :
  db_faults db = [] -> cursor <> "0" ->
  ~ In cursor (map e_cursor (db_events db)) ->
  exists db',
    get_changes_since cursor db
    = (Ok (mkChanges (latest_cursor (db_events db)) [] []), db').
Proof.
  intros Hf Hc Hin. unfold get_changes_since. unfold bind at 1.
  rewrite get_events_since_ok by done.
  unfold bind at 1. rewrite get_latest_cursor_ok by done.
  unfold bind at 1. apply String.eqb_neq in Hc.
  unfold events_since, cursor_id. rewrite Hc, find_none_fresh by done.
  simpl. unfold ret. eauto.
Qed.

Lemma pull_with_unknown_cursor_returns_nothing_witness :
  exists db',
    get_changes_since "1_ffffffffffffffff" (db_with_events 2)
    = (Ok (mkChanges (latest_cursor (db_events (db_with_events 2))) [] []), db').
Proof.
  apply (pull_with_unknown_cursor_returns_nothing "1_ffffffffffffffff"
           (db_with_events 2)).
  - reflexivity.
  - done.
  - vm_compute. intuition discriminate.
Defined.

(** [ORDER BY updated_at DESC] *)
Lemma insert_by_updated_perm t l : insert_by_updated t l ≡ₚ t :: l.
Proof.
  induction l as [|u l IH]; simpl; [done|].
  destruct (_ <? _)%Z; [done|]. rewrite IH. apply Permutation_swap.
Qed.

Lemma order_by_updated_desc_perm l : order_by_updated_desc l ≡ₚ l.
Proof.
  induction l as [|t l IH]; simpl; [done|].
  rewrite insert_by_updated_perm. by rewrite IH.
Qed.

Lemma insert_by_updated_sorted t l :
  StronglySorted updated_desc l -> StronglySorted updated_desc (insert_by_updated t l).
Proof.
  induction 1 as [|u l Hs IH Hall]; simpl; [repeat constructor|].
  destruct (Z.ltb_spec (t_updatedAt u) (t_updatedAt t)) as [Hlt|Hge].
  - constructor; [by constructor|]. constructor; [unfold updated_desc; lia|].
    eapply Forall_impl; [exact Hall|]. unfold updated_desc. intros x. simpl. lia.
  - constructor; [done|].
    rewrite insert_by_updated_perm. by constructor.
Qed.

Lemma order_by_updated_desc_sorted l :
  StronglySorted updated_desc (order_by_updated_desc l).
Proof.
  induction l as [|t l IH]; simpl; [constructor|].
  by apply insert_by_updated_sorted.
Qed.

Lemma parsed_tables_list (m : gmap string TableRow) :
  let l := map (fun kv => _parse_table_row (fst kv) (snd kv)) (map_to_list m) in
  NoDup (map t_id l)
  /\ forall t, In t l
       <-> exists tr, m !! t_id t = Some tr /\ t = _parse_table_row (t_id t) tr.
Proof.
  simpl. split.
  - rewrite map_map. simpl.
    replace (map (fun x : string * TableRow => x.1) (map_to_list m))
      with ((map_to_list m).*1) by done.
    apply NoDup_fst_map_to_list.
  - intros t. rewrite in_map_iff. split.
    + intros ([k tr] & <- & Hin%list_elem_of_In%elem_of_map_to_list).
      simpl. eauto.
    + intros (tr & Hl & Ht). exists (t_id t, tr). split; [by rewrite Ht|].
      by apply list_elem_of_In, elem_of_map_to_list.
Qed.

(** X23.  A pull from ["0"] met by no fault returns every stored table
    exactly once, as [get_table] reads it, most recently updated first,
    with the latest cursor. *)
Theorem pull_from_zero_lists_tables_newest_first db :
  db_faults db = [] ->
  exists res db',
    get_changes_since "0" db = (Ok res, db')
    /\ StronglySorted updated_desc (cr_tables res)
    /\ lists_all_tables (cr_tables res) db
    /\ cr_cursor res = latest_cursor (db_events db).
Proof.
  intros Hf. unfold get_changes_since. unfold bind at 1.
  rewrite get_events_since_ok by done.
  unfold bind at 1. rewrite get_latest_cursor_ok by done.
  unfold bind at 1. rewrite String.eqb_refl.
  unfold get_all_tables, bind. rewrite storage_call_ok by done.
  unfold get_db, ret. simpl. eexists _, _. split; [done|]. simpl.
  split; [apply order_by_updated_desc_sorted|]. split; [|done].
  destruct (parsed_tables_list (db_tables db)) as [Hn Hin]. split.
  - by rewrite order_by_updated_desc_perm.
  - intros t. rewrite <- Hin. split; intros H.
    + eapply Permutation_in; [apply order_by_updated_desc_perm|done].
    + eapply Permutation_in; [symmetry; apply order_by_updated_desc_perm|done].
Qed.

Lemma pull_from_zero_lists_tables_newest_first_witness :
  exists res db',
    get_changes_since "0" two_table_db = (Ok res, db')
    /\ StronglySorted updated_desc (cr_tables res)
    /\ lists_all_tables (cr_tables res) two_table_db
    /\ cr_cursor res = latest_cursor (db_events two_table_db).
Proof.
  apply (pull_from_zero_lists_tables_newest_first two_table_db). reflexivity.
Defined.

(** ** The table endpoints *)

Lemma store_access_ok db :
  db_faults db = [] -> store_access db = (Ok tt, db).
Proof. intros H. unfold store_access. rewrite H. destruct db; simpl in *; by subst. Qed.

(** X24.  With no storage fault, creating a table under an unused id
    returns that id; reading it back gives the body's name, headers and rows
    with version 1 and the time of creation, whatever [version] and
    [updatedAt] the body carried.  Other tables and the log are untouched. *)
Theorem create_then_get_table (t : Table) db :
  db_faults db = [] -> db_tables db !! t_id t = None ->
  exists db1 db2,
    create_table t db = (Ok (t_id t), db1)
    /\ get_table (t_id t) db1
       = (Ok (Some (mkTable (t_id t) (t_name t) (t_headers t) (t_rows t)
                      (db_clock db) 1)), db2)
    /\ others_kept (t_id t) db db1
    /\ db_events db1 = db_events db.
Proof.
  intros Hf Hn. unfold create_table, bind. rewrite store_access_ok by done.
  unfold utcnow, get_db. simpl. rewrite Hn. unfold set_tables, ret. simpl.
  eexists _, _. split; [done|]. split; [|split; [|done]].
  - rewrite get_table_ok by done. simpl. rewrite lookup_insert_eq. done.
  - intros other Ho. simpl. by rewrite lookup_insert_ne.
Qed.

Lemma create_then_get_table_witness :
  exists db1 db2,
    create_table budget_table db_two_rows = (Ok "U", db1)
    /\ get_table "U" db1
       = (Ok (Some (mkTable "U" "Budget" [PStr "X"] [mkRow "r" [PStr "1"] []]
                      1000 1)), db2)
    /\ others_kept "U" db_two_rows db1
    /\ db_events db1 = db_events db_two_rows.
Proof.
  apply (create_then_get_table budget_table db_two_rows).
  - reflexivity.
  - vm_compute. reflexivity.
Defined.

(** X25.  With no storage fault, creating a table under an id already
    stored violates the primary key: the store raises, the handler answers
    500 "Failed to create table", and the stored tables and the log are
    unchanged. *)
Theorem create_existing_table_fails (t : Table) db old :
  db_faults db = [] -> db_tables db !! t_id t = Some old ->
  exists db',
    create_table t db = (Raise IntegrityError, db')
    /\ App.create_table t db
       = (HTTPException 500 (Detail "Failed to create table"), db')
    /\ db_tables db' = db_tables db /\ db_events db' = db_events db.
Proof.
  intros Hf Hs. unfold App.create_table, create_table, bind.
  rewrite store_access_ok by done.
  unfold utcnow, get_db. simpl. rewrite Hs. unfold raise. simpl. eauto.
Qed.

Lemma create_existing_table_fails_witness :
  exists db',
    create_table clashing_table db_two_rows = (Raise IntegrityError, db')
    /\ App.create_table clashing_table db_two_rows
       = (HTTPException 500 (Detail "Failed to create table"), db')
    /\ db_tables db' = db_tables db_two_rows
    /\ db_events db' = db_events db_two_rows.
Proof.
  apply (create_existing_table_fails clashing_table db_two_rows
           (sample_table [PStr "A"] two_rows)).
  - reflexivity.
  - vm_compute. reflexivity.
Defined.

(** X26.  With no storage fault, updating a stored table replaces name,
    headers and rows by the body's; reading it back gives them under the id
    of the path (not the body's), with the stored version plus one (not the
    body's).  Other tables and the log are untouched. *)
Theorem update_then_get_table tid (body : Table) db old :
  db_faults db = [] -> db_tables db !! tid = Some old ->
  exists db1 db2,
    update_table tid body db = (Ok true, db1)
    /\ get_table tid db1
       = (Ok (Some (mkTable tid (t_name body) (t_headers body) (t_rows body)
                      (db_clock db) (tr_version old + 1))), db2)
    /\ others_kept tid db db1
    /\ db_events db1 = db_events db.
Proof.
  intros Hf Hs.
  rewrite (update_table_ok tid body old db) by done.
  eexists _, _. split; [done|]. split; [|split; [|done]].
  - rewrite get_table_ok by done. simpl. rewrite lookup_insert_eq. done.
  - intros other Ho. simpl. by rewrite lookup_insert_ne.
Qed.

Lemma update_then_get_table_witness :
  exists db1 db2,
    update_table "T" budget_table db_two_rows = (Ok true, db1)
    /\ get_table "T" db1
       = (Ok (Some (mkTable "T" "Budget" [PStr "X"] [mkRow "r" [PStr "1"] []]
                      1000 (1 + 1))), db2)
    /\ others_kept "T" db_two_rows db1
    /\ db_events db1 = db_events db_two_rows.
Proof.
  apply (update_then_get_table "T" budget_table db_two_rows
           (sample_table [PStr "A"] two_rows)).
  - reflexivity.
  - vm_compute. reflexivity.
Defined.

(** X27.  With no storage fault, [PUT] on an id that is not stored answers
    404 "Table not found" and creates nothing. *)
Theorem update_absent_table_is_404 tid (body : Table) db :
  db_faults db = [] -> db_tables db !! tid = None ->
  exists db',
    App.update_table tid body db
    = (HTTPException 404 (Detail "Table not found"), db')
    /\ db_tables db' = db_tables db /\ db_events db' = db_events db.
Proof.
  intros Hf Hn. unfold App.update_table, update_table, bind.
  rewrite storage_call_ok by done. unfold utcnow, get_db. simpl.
  rewrite Hn. unfold ret. eauto.
Qed.

Lemma update_absent_table_is_404_witness :
  exists db',
    App.update_table "U" budget_table db_two_rows
    = (HTTPException 404 (Detail "Table not found"), db')
    /\ db_tables db' = db_tables db_two_rows
    /\ db_events db' = db_events db_two_rows.
Proof.
  apply (update_absent_table_is_404 "U" budget_table db_two_rows).
  - reflexivity.
  - vm_compute. reflexivity.
Defined.

(** X28.  With no storage fault, [DELETE] of a stored table answers 200;
    then [GET] and a second [DELETE] on the same id answer 404.  Other
    tables are untouched and the event log is kept as it was. *)
Theorem delete_then_get_is_404 tid db old :
  db_faults db = [] -> db_tables db !! tid = Some old ->
  exists db1 db2 db3,
    App.delete_table tid db = (Http200 "Table deleted successfully", db1)
    /\ App.get_table tid db1
       = (HTTPException 404 (Detail "Table not found"), db2)
    /\ App.delete_table tid db1
       = (HTTPException 404 (Detail "Table not found"), db3)
    /\ others_kept tid db db1
    /\ db_events db1 = db_events db.
Proof.
  intros Hf Hs. unfold App.delete_table, App.get_table.
  rewrite (delete_table_ok tid db) by done. rewrite Hs.
  eexists _, _, _. split; [done|].
  rewrite get_table_ok by done. simpl. rewrite lookup_delete_eq. simpl.
  split; [done|].
  unfold delete_table, bind. rewrite storage_call_ok by done.
  unfold get_db. simpl. rewrite lookup_delete_eq. unfold ret.
  split; [done|]. split; [|done].
  intros other Ho. simpl. by rewrite lookup_delete_ne.
Qed.

Lemma delete_then_get_is_404_witness :
  exists db1 db2 db3,
    App.delete_table "T" two_table_db = (Http200 "Table deleted successfully", db1)
    /\ App.get_table "T" db1 = (HTTPException 404 (Detail "Table not found"), db2)
    /\ App.delete_table "T" db1 = (HTTPException 404 (Detail "Table not found"), db3)
    /\ others_kept "T" two_table_db db1
    /\ db_events db1 = db_events two_table_db.
Proof.
  apply (delete_then_get_is_404 "T" two_table_db (sample_table [PStr "A"] two_rows)).
  - reflexivity.
  - vm_compute. reflexivity.
Defined.

(** X29.  After a reset met by no fault, a pull with any cursor answers 200
    with cursor ["0"], no deltas and no tables. *)
Theorem reset_then_pull_is_empty db since :
  db_faults db = [] ->
  exists db1 db2,
    reset db = (Ok tt, db1)
    /\ App.sync_pull since db1 = (Http200 (mkChanges "0" [] []), db2).
Proof.
  intros Hf.
  assert (Hr : reset db = (Ok tt, mkDb ∅ [] (db_clock db) [] (db_calls db))).
  { unfold reset, bind. rewrite store_access_ok by done.
    unfold set_tables, set_events. simpl. by rewrite Hf. }
  rewrite Hr. clear Hr. set (db1 := mkDb _ _ _ _ _).
  assert (He : events_since since default_limit [] = []).
  { unfold events_since. by destruct (String.eqb since "0"). }
  exists db1. unfold App.sync_pull, get_changes_since. unfold bind at 1.
  rewrite get_events_since_ok by done.
  unfold bind at 1. rewrite get_latest_cursor_ok by done.
  unfold bind at 1. simpl db_events. rewrite He. csimpl.
  destruct (String.eqb since "0").
  - unfold get_all_tables, bind. rewrite storage_call_ok by done.
    unfold get_db, ret. simpl. rewrite map_to_list_empty. simpl. eauto.
  - unfold ret. eauto.
Qed.

Lemma reset_then_pull_is_empty_witness :
  exists db1 db2,
    reset (db_with_events 2) = (Ok tt, db1)
    /\ App.sync_pull "0" db1 = (Http200 (mkChanges "0" [] []), db2).
Proof.
  apply (reset_then_pull_is_empty (db_with_events 2) "0"). reflexivity.
Defined.

(** ** The skeleton engine *)

Lemma placeholder_apply_never_succeeds op c db r db' :
  try_except (Placeholder._apply_operation op c) (fun _ => ret false) db = (r, db') ->
  r = Ok false /\ db_tables db' = db_tables db /\ db_events db' = db_events db.
Proof.
  unfold try_except, Placeholder._apply_operation.
  destruct (negb _ || negb _).
  - unfold ret. by intros [= <- <-].
  - unfold bind.
    destruct (get_table _ db) as [[t|e] db1] eqn:Eg;
      apply get_table_inv in Eg as (Ht & He & _).
    + unfold Placeholder._apply_set_cell, Placeholder._apply_add_row,
        Placeholder._apply_delete_row, Placeholder._apply_add_column,
        Placeholder._apply_delete_column, Placeholder._apply_set_header,
        Placeholder._apply_rename_table, try_except, ret.
      repeat (destruct (is_op _ _)); by intros [= <- <-].
    + unfold ret. by intros [= <- <-].
Qed.

Lemma skeleton_process_ops sha256_hex c ops : forall confl app db,
  exists db',
    Skeleton.process_ops sha256_hex c ops confl app db
    = (Ok (confl ++ map (fun op => mkConflict op "Failed to apply") ops, app), db')
    /\ db_tables db' = db_tables db /\ db_events db' = db_events db.
Proof.
  induction ops as [|op rest IH]; intros confl app db; simpl.
  - unfold ret. rewrite app_nil_r. eauto.
  - unfold bind at 1.
    destruct (try_except _ _ db) as [r db1] eqn:Et.
    apply placeholder_apply_never_succeeds in Et as (-> & Ht & He).
    destruct (IH (confl ++ [mkConflict op "Failed to apply"]) app db1)
      as (db' & -> & Ht' & He').
    exists db'. rewrite <- app_assoc. simpl. split; [done|].
    by rewrite Ht', He', Ht, He.
Qed.

(** X30.  In the skeleton engine every applier is a placeholder: a push
    changes no table and appends no event, whatever the fault schedule, and
    when it returns, every operation is a conflict with reason
    ["Failed to apply"], the deltas are empty and the cursor is the latest
    cursor of the unchanged log. *)
Theorem skeleton_push_applies_nothing sha256_hex c base ops db r db' :
  Skeleton.process_sync sha256_hex c base ops db = (r, db') ->
  db_tables db' = db_tables db /\ db_events db' = db_events db
  /\ forall res, r = Ok res ->
       res = mkSyncResult (latest_cursor (db_events db)) []
               (map (fun op => mkConflict op "Failed to apply") ops).
Proof.
  unfold Skeleton.process_sync. unfold bind at 1.
  destruct (skeleton_process_ops sha256_hex c ops [] [] db) as (db1 & -> & Ht & He).
  unfold bind at 1.
  destruct (get_latest_cursor db1) as [r2 db2] eqn:El.
  apply get_latest_cursor_inv in El as (Ht2 & He2 & Hl).
  destruct r2 as [latest|e].
  - unfold Skeleton._get_other_client_changes, bind, ret. intros [= <- <-].
    rewrite Ht2, He2, Ht, He. repeat split. intros res [= <-]. simpl.
    rewrite (Hl latest eq_refl), He. done.
  - intros [= <- <-]. rewrite Ht2, He2, Ht, He. by repeat split.
Qed.

Lemma skeleton_push_applies_nothing_witness :
  db_tables (snd (Skeleton.process_sync sample_hex "alice" "0"
                    [add_row_op "T" "R2"] db_two_rows))
  = db_tables db_two_rows
  /\ db_events (snd (Skeleton.process_sync sample_hex "alice" "0"
                       [add_row_op "T" "R2"] db_two_rows))
     = db_events db_two_rows
  /\ forall res,
       fst (Skeleton.process_sync sample_hex "alice" "0"
              [add_row_op "T" "R2"] db_two_rows) = Ok res ->
       res = mkSyncResult (latest_cursor (db_events db_two_rows)) []
               (map (fun op => mkConflict op "Failed to apply")
                    [add_row_op "T" "R2"]).
Proof.
  apply (skeleton_push_applies_nothing sample_hex "alice" "0"
           [add_row_op "T" "R2"] db_two_rows).
  apply surjective_pairing.
Defined.

(** * The last-writer-wins rule, failures to apply and deltas *)

(** ** C1: the rule of [setCell] for every column index *)

Lemma written_row_within row k value ts c :
  k < length (r_cells row) -> k < length (r_cellMeta row) ->
  written_row row k value ts c
  = mkRow (r_rowId row) (<[k := value]> (r_cells row))
          (<[k := Some (mkCellMeta value ts c)]> (r_cellMeta row)).
Proof.
  intros Hc Hm. unfold written_row. by rewrite !pad_id by lia.
Qed.

Lemma py_index_negative n i :
  (- Z.of_nat n <= i < 0)%Z -> py_index n i = Some (Z.to_nat (Z.of_nat n + i)).
Proof.
  intros H. unfold py_index.
  destruct (Z.leb_spec 0 i); [lia|].
  destruct (Z.leb_spec (- Z.of_nat n) i); [done|lia].
Qed.

(** What a [setCell] that meets no fault does on the only row of its id,
    for a column index within reach. *)
Lemma set_cell_outcome op c db tid tr pre row post col :
  is_set_cell op tid (r_rowId row) col ->
  db_faults db = [] -> db_tables db !! tid = Some tr ->
  sole_row tr pre row post ->
  col_in_reach row col ->
  let k := designated_column row col in
  let value := dict_get_str (o_value op) (PStr "") in
  let ts := dict_get (o_ts op) in
  let applies := meta_unset (stored_meta row k) || beats ts c (stored_meta row k) in
  _apply_operation op c db
  = (Ok applies,
     if applies then
       updated_db tid
         (with_rows (_parse_table_row tid tr)
            (pre ++ written_row row k value ts c :: post))
         tr (log_call (GetTable tid) db)
     else log_call (GetTable tid) db).
Proof.
  intros Hop Hf Ht Hsole Hreach k value ts applies.
  destruct (Z.leb_spec 0 col) as [Hc|Hc].
  - assert (Hk : col = Z.of_nat k).
    { unfold k, designated_column. destruct (Z.leb_spec 0 col); lia. }
    rewrite Hk in Hop.
    exact (set_cell_nat_outcome op c db tid tr pre row post k Hop Hf Ht Hsole).
  - destruct Hreach as [?|[Hlen Hlow]]; [lia|].
    assert (Hk : k = Z.to_nat (Z.of_nat (length (r_cells row)) + col)).
    { unfold k, designated_column. destruct (Z.leb_spec 0 col); [lia|done]. }
    assert (Hkc : k < length (r_cells row)) by lia.
    assert (Hkm : k < length (r_cellMeta row)) by lia.
    erewrite apply_set_cell_unique by eauto.
    unfold set_cell_result. fold value ts.
    rewrite !pad_id by lia.
    unfold py_getitem, py_setitem.
    rewrite !py_index_negative by lia. rewrite Hlen, <- Hk.
    destruct (lookup_lt_is_Some_2 (r_cellMeta row) k Hkm) as [cur Hcur].
    rewrite Hcur.
    assert (Hs : stored_meta row k = cur) by (unfold stored_meta; by rewrite Hcur).
    pose proof (should_apply_change_words cur ts c) as Hw.
    unfold applies. rewrite Hs.
    destruct (_should_apply_change cur ts c) as [b|e].
    + subst b. destruct (meta_unset cur || beats ts c cur); [|done].
      by rewrite written_row_within.
    + by rewrite Hw.
Qed.






(** ** C2: two writers on one cell, whatever the cell held *)

Lemma written_row_reach row col value ts c :
  col_in_reach row col ->
  let k := designated_column row col in
  col_in_reach (written_row row k value ts c) col
  /\ designated_column (written_row row k value ts c) col = k.
Proof.
  intros Hreach k. unfold k, designated_column, col_in_reach.
  destruct (Z.leb_spec 0 col) as [Hc|Hc]; [split; [by left|done]|].
  destruct Hreach as [?|[Hlen Hlow]]; [lia|].
  rewrite written_row_within by lia. simpl. rewrite !length_insert.
  split; [right; by split|done].
Qed.

Lemma cell_value_log_call call db tid rid k :
  cell_value (log_call call db) tid rid k = cell_value db tid rid k.
Proof. done. Qed.

Lemma cell_value_written tid t old db pre row post k value ts c :
  t_rows t = pre ++ written_row row k value ts c :: post ->
  Forall (fun r => r_rowId r <> r_rowId row) pre ->
  cell_value (updated_db tid t old db) tid (r_rowId row) k = Some value.
Proof.
  intros Hrows Hpre. unfold cell_value. rewrite updated_db_lookup. simpl.
  rewrite Hrows.
  change (r_rowId row) with (r_rowId (written_row row k value ts c)) at 1.
  rewrite find_sole_row by done. simpl.
  exact (written_row_cell row k value ts c).
Qed.

(** The state one applied [setCell] leaves is again one on which the next
    [setCell] on the same cell is decided by [set_cell_outcome]. *)
Lemma set_cell_after_write op c db tid tr pre row post col k value0 ts0 c0 :
  is_set_cell op tid (r_rowId row) col ->
  db_faults db = [] -> db_tables db !! tid = Some tr ->
  sole_row tr pre row post ->
  col_in_reach row col -> k = designated_column row col ->
  let row0 := written_row row k value0 ts0 c0 in
  let db0 :=
    updated_db tid (with_rows (_parse_table_row tid tr) (pre ++ row0 :: post))
               tr (log_call (GetTable tid) db) in
  let value := dict_get_str (o_value op) (PStr "") in
  let ts := dict_get (o_ts op) in
  let applies :=
    meta_unset (Some (mkCellMeta value0 ts0 c0))
    || beats ts c (Some (mkCellMeta value0 ts0 c0)) in
  cell_value (snd (_apply_operation op c db0)) tid (r_rowId row) k
  = Some (if applies then value else value0).
Proof.
  intros Hop Hf Ht (Hrows & Hpre & Hpost) Hreach -> row0 db0 value ts applies.
  destruct (written_row_reach row col value0 ts0 c0 Hreach) as [Hreach0 Hk0].
  fold row0 in Hreach0, Hk0.
  set (tr0 := mkTableRow (tr_name tr) (tr_headers tr) (pre ++ row0 :: post)
                         (db_clock db) (tr_version tr + 1)).
  assert (Hl0 : db_tables db0 !! tid = Some tr0) by apply updated_db_lookup.
  rewrite (set_cell_outcome op c db0 tid tr0 pre row0 post col);
    [|done|by rewrite <- Hf|done|done|done].
  rewrite Hk0. fold value ts.
  assert (Hm : stored_meta row0 (designated_column row col)
               = Some (mkCellMeta value0 ts0 c0)) by apply written_row_meta.
  rewrite Hm. fold applies. destruct applies; simpl snd.
  - change (r_rowId row) with (r_rowId row0).
    by apply (cell_value_written tid _ _ _ pre row0 post _ value ts c).
  - rewrite cell_value_log_call.
    by apply (cell_value_written tid _ _ _ pre row post _ value0 ts0 c0).
Qed.

(** The greater of two writes ends in the cell, in either order. *)
Lemma set_cell_greater_wins opG cG tsG opL cL tsL db tid tr pre row post col :
  is_set_cell opG tid (r_rowId row) col ->
  is_set_cell opL tid (r_rowId row) col ->
  o_ts opG = Val tsG -> o_ts opL = Val tsL -> cG <> cL ->
  lex_gt tsG cG tsL cL = true -> tsG <> 0%Z ->
  db_faults db = [] -> db_tables db !! tid = Some tr ->
  sole_row tr pre row post ->
  col_in_reach row col ->
  let k := designated_column row col in
  meta_unset (stored_meta row k) || beats (Some tsG) cG (stored_meta row k) = true ->
  let vG := dict_get_str (o_value opG) (PStr "") in
  cell_value (apply_both opG cG opL cL db) tid (r_rowId row) k = Some vG
  /\ cell_value (apply_both opL cL opG cG db) tid (r_rowId row) k = Some vG.
Proof.
  intros HG HL HtsG HtsL Hne Hgt Hnz Hf Ht Hsole Hreach k Hpass vG.
  assert (HLG : lex_gt tsL cL tsG cG = false).
  { rewrite (lex_gt_antisym tsL cL tsG cG) by done. by rewrite Hgt. }
  unfold apply_both. split.
  - rewrite (set_cell_outcome opG cG db tid tr pre row post col) by done.
    rewrite HtsG. cbn [dict_get]. fold k. rewrite Hpass. cbn [snd].
    fold vG.
    rewrite (set_cell_after_write opL cL db tid tr pre row post col k vG
               (Some tsG) cG) by done.
    rewrite HtsL. unfold meta_unset, beats. cbn [dict_get m_ts m_by].
    apply Z.eqb_neq in Hnz. by rewrite Hnz, HLG.
  - rewrite (set_cell_outcome opL cL db tid tr pre row post col) by done.
    fold k. destruct (meta_unset (stored_meta row k) || beats _ cL _); cbn [snd].
    + rewrite (set_cell_after_write opG cG db tid tr pre row post col k
                 (dict_get_str (o_value opL) (PStr "")) (dict_get (o_ts opL)) cL)
        by done.
      rewrite HtsG, HtsL. unfold meta_unset, beats. cbn [dict_get m_ts m_by].
      by rewrite Hgt, orb_true_r.
    + rewrite (set_cell_outcome opG cG (log_call (GetTable tid) db) tid tr pre
                 row post col) by done.
      rewrite HtsG. cbn [dict_get]. fold k. rewrite Hpass. cbn [snd].
      destruct Hsole as (Hrows & Hpre & Hpost).
      by apply (cell_value_written tid _ _ _ pre row post _ vG (Some tsG) cG).
Qed.

(** C2, as amended.  Two [setCell]s from different clients on the same cell
    of the only row of their id, with [col] within reach, applied in either
    order and met by no storage fault: provided the greater of
    [(ts1, c1)] and [(ts2, c2)] has a non-zero timestamp and passes the LWW
    test against the metadata the cell starts with (in particular when it
    has none), the cell ends with the value of the greater one, that of
    [op2] when [(ts2, c2) > (ts1, c1)] and that of [op1] otherwise.
    Nothing is asked of the smaller one. *)
Theorem set_cell_pair_converges op1 c1 ts1 op2 c2 ts2 db tid tr pre row post col :
  is_set_cell op1 tid (r_rowId row) col ->
  is_set_cell op2 tid (r_rowId row) col ->
  o_ts op1 = Val ts1 -> o_ts op2 = Val ts2 -> c1 <> c2 ->
  db_faults db = [] -> db_tables db !! tid = Some tr ->
  sole_row tr pre row post ->
  col_in_reach row col ->
  let k := designated_column row col in
  let second_greater := lex_gt ts2 c2 ts1 c1 in
  let ts := if second_greater then ts2 else ts1 in
  let c := if second_greater then c2 else c1 in
  ts <> 0%Z ->
  meta_unset (stored_meta row k) || beats (Some ts) c (stored_meta row k) = true ->
  let winner :=
    if second_greater
    then dict_get_str (o_value op2) (PStr "")
    else dict_get_str (o_value op1) (PStr "") in
  cell_value (apply_both op1 c1 op2 c2 db) tid (r_rowId row) k = Some winner
  /\ cell_value (apply_both op2 c2 op1 c1 db) tid (r_rowId row) k = Some winner.
Proof.
  intros H1 H2 Hts1 Hts2 Hne Hf Ht Hsole Hreach k second_greater ts c Hnz Hpass
    winner.
  unfold winner, ts, c, second_greater in *.
  destruct (lex_gt ts2 c2 ts1 c1) eqn:Hgt.
  - destruct (set_cell_greater_wins op2 c2 ts2 op1 c1 ts1 db tid tr pre row post
                col) as [Ha Hb]; try done.
  - assert (Hgt1 : lex_gt ts1 c1 ts2 c2 = true).
    { rewrite (lex_gt_antisym ts1 c1 ts2 c2) by done. by rewrite Hgt. }
    destruct (set_cell_greater_wins op1 c1 ts1 op2 c2 ts2 db tid tr pre row post
                col) as [Ha Hb]; done.
Qed.

(** The cell holds bob's write of timestamp 150; alice writes at 100 and
    carol at 200: carol's value stays, whoever arrives first, although
    alice's write does not pass the test against what the cell held. *)
Lemma set_cell_pair_converges_witness :
  cell_value (apply_both (set_cell_op "T" "R" 0 (Val "x") (Val 100%Z)) "alice"
                         (set_cell_op "T" "R" 0 (Val "y") (Val 200%Z)) "carol"
                         db_bob_150)
             "T" "R" 0 = Some (PStr "y")
  /\ cell_value (apply_both (set_cell_op "T" "R" 0 (Val "y") (Val 200%Z)) "carol"
                            (set_cell_op "T" "R" 0 (Val "x") (Val 100%Z)) "alice"
                            db_bob_150)
                "T" "R" 0 = Some (PStr "y").
Proof.
  apply (set_cell_pair_converges
           (set_cell_op "T" "R" 0 (Val "x") (Val 100%Z)) "alice" 100%Z
           (set_cell_op "T" "R" 0 (Val "y") (Val 200%Z)) "carol" 200%Z
           db_bob_150 "T"
           (mkTableRow "Sheet" [PStr "A"] [row_written_by_bob 150] 0 1)
           [] (row_written_by_bob 150) [] 0%Z).
  - repeat split; done.
  - repeat split; done.
  - reflexivity.
  - reflexivity.
  - discriminate.
  - reflexivity.
  - reflexivity.
  - repeat split; constructor.
  - left. lia.
  - vm_compute. discriminate.
  - reflexivity.
Defined.

(** C2 as stated fails.  With both timestamps zero the later arrival
    always overwrites: bob's write, although [(0, bob) > (0, alice)], does
    not survive when alice arrives second.  On a cell already written at a
    later timestamp neither write survives.  And with [col = -1] on a row
    without metadata both writes are rejected. *)
Lemma set_cell_pair_counterexample :
  ~ second_survives_iff_greater (sample_db [PStr "A"] [fresh_row] []) "T" "R" 0
      (set_cell_op "T" "R" 0 (Val "x") (Val 0%Z)) "alice" 0
      (set_cell_op "T" "R" 0 (Val "y") (Val 0%Z)) "bob" 0 (PStr "y")
  /\ ~ second_survives_iff_greater
        (sample_db [PStr "A"] [row_written_by_bob 500] []) "T" "R" 0
        (set_cell_op "T" "R" 0 (Val "x") (Val 100%Z)) "alice" 100
        (set_cell_op "T" "R" 0 (Val "y") (Val 200%Z)) "carol" 200 (PStr "y")
  /\ ~ second_survives_iff_greater
        (sample_db [PStr "A"] [fresh_row] []) "T" "R" 0
        (set_cell_op "T" "R" (-1) (Val "x") (Val 100%Z)) "alice" 100
        (set_cell_op "T" "R" (-1) (Val "y") (Val 200%Z)) "carol" 200 (PStr "y").
Proof.
  split; [|split]; intros H.
  - destruct (H _ (or_intror eq_refl)) as [_ Hy].
    specialize (Hy eq_refl). vm_compute in Hy. discriminate.
  - destruct (H _ (or_introl eq_refl)) as [_ Hy].
    specialize (Hy eq_refl). vm_compute in Hy. discriminate.
  - destruct (H _ (or_introl eq_refl)) as [_ Hy].
    specialize (Hy eq_refl). vm_compute in Hy. discriminate.
Qed.

(** ** The push handler and the engine it runs *)






(** ** C4: what becomes of a write that loses the race *)




(** ** C5: the causes of a failure to apply *)








(** ** C7: the deltas of a push *)






